(** * FullscreenManager: a shallow embedding and its properties

    The development follows the class [FullscreenManager] of
    [packages/plugins/@nocobase/plugin-block-fullscreen/src/client]
    (module [FullscreenManager], kept in the sources next to
    [FullscreenBlockSchemaSettings.tsx]) and the one caller of it,
    [FullscreenBlock.tsx].

    The browser is modelled as far as the manager touches it:
    - the element tree is a finite heap of element records, a node being
      the index of its record; the manager never changes the tree;
    - the inline style of an element ([element.style]) is a slot per
      property of [STYLES_TO_SAVE]; the slots are independent of each
      other (the interplay of CSS shorthands and longhands is not modelled)
      and accept every string;
    - [window.getComputedStyle(e).display] is the inline [display] when it
      is set and the value the style sheets give the element otherwise;
    - [document.head] holds the injected [<style>] elements, each with an
      identity of its own;
    - [console] is a log, timers are a list of pending timer identifiers.

    The first part gives the manager and the properties of entering,
    leaving, the placeholder, the sweep and [cleanup]; the later parts add
    what entering hides, nested sessions, sequences of calls, and the
    click and unmount handlers of the block component. *)

From Stdlib Require Import List String Ascii Arith Bool Lia PeanoNat.
Import ListNotations.
Open Scope string_scope.
Open Scope list_scope.
Open Scope nat_scope.

Set Implicit Arguments.

(** ** Style properties *)

(** The keys of [interface StyleProperties]. *)
Inductive StyleProp : Type :=
| position | top | left | width | height | zIndex | background | overflow
| margin | padding | marginBottom | boxSizing | maxHeight | display.

Definition StyleProp_eq_dec (p q : StyleProp) : {p = q} + {p <> q}.
Proof. decide equality. Defined.

Definition prop_eqb (p q : StyleProp) : bool :=
  if StyleProp_eq_dec p q then true else false.

Lemma prop_eqb_refl (p : StyleProp) : prop_eqb p p = true.
Proof. unfold prop_eqb. destruct (StyleProp_eq_dec p p); congruence. Qed.

Lemma prop_eqb_eq (p q : StyleProp) : prop_eqb p q = true <-> p = q.
Proof. unfold prop_eqb. destruct (StyleProp_eq_dec p q); split; congruence. Qed.

Lemma prop_eqb_neq (p q : StyleProp) : p <> q -> prop_eqb p q = false.
Proof. unfold prop_eqb. destruct (StyleProp_eq_dec p q); congruence. Qed.

(** [const FULLSCREEN_STYLES], in the order of its keys. *)
Definition FULLSCREEN_STYLES : list (StyleProp * string) :=
  [ (position, "fixed"); (top, "0"); (left, "0"); (width, "100vw");
    (height, "100vh"); (zIndex, "9999"); (background, "#fff");
    (overflow, "auto"); (margin, "0"); (padding, "0"); (marginBottom, "0");
    (boxSizing, "border-box"); (maxHeight, "100vh"); (display, "block") ].

(** [const STYLES_TO_SAVE = Object.keys(FULLSCREEN_STYLES)]. *)
Definition STYLES_TO_SAVE : list StyleProp := map fst FULLSCREEN_STYLES.

Lemma STYLES_TO_SAVE_all (p : StyleProp) : In p STYLES_TO_SAVE.
Proof. destruct p; simpl; tauto. Qed.

Lemma STYLES_TO_SAVE_NoDup : NoDup STYLES_TO_SAVE.
Proof.
  unfold STYLES_TO_SAVE; simpl.
  repeat (constructor; [simpl; intuition discriminate|]).
  constructor.
Qed.

(** ** The element tree *)

Definition node := nat.

(** What the manager reads of an [HTMLElement] and never writes. *)
Record Element : Type := mkElement {
  id : string;                    (* element.id *)
  parentElement : option node;    (* element.parentElement *)
  children : list node;           (* Array.from(element.children) *)
  isConnected : bool;             (* the element is in the document *)
  sheetDisplay : string           (* display given by the style sheets *)
}.

(** The heap of elements; node [n] is the [n]-th record.  Nodes are
    numbered in tree order, so that a parent comes before its children. *)
Record DOM : Type := mkDOM {
  elements : list Element;
  body : node                     (* document.body *)
}.

Definition idOf (d : DOM) (n : node) : string :=
  match nth_error (elements d) n with Some e => id e | None => "" end.

Definition parentOf (d : DOM) (n : node) : option node :=
  match nth_error (elements d) n with Some e => parentElement e | None => None end.

Definition childrenOf (d : DOM) (n : node) : list node :=
  match nth_error (elements d) n with Some e => children e | None => [] end.

Definition connected (d : DOM) (n : node) : bool :=
  match nth_error (elements d) n with Some e => isConnected e | None => false end.

Definition sheetDisplayOf (d : DOM) (n : node) : string :=
  match nth_error (elements d) n with Some e => sheetDisplay e | None => "" end.

Fixpoint nodupb (l : list node) : bool :=
  match l with
  | [] => true
  | x :: r => negb (existsb (Nat.eqb x) r) && nodupb r
  end.

(** Well-formedness of the tree: a parent is numbered before its child,
    every listed child names the listing element as its parent, and no
    child is listed twice. *)
Definition element_ok (d : DOM) (n : node) : bool :=
  match parentOf d n with Some p => p <? n | None => true end
  && forallb (fun c => match parentOf d c with
                       | Some p => p =? n
                       | None => false
                       end) (childrenOf d n)
  && nodupb (childrenOf d n).

Definition dom_wf (d : DOM) : bool :=
  forallb (element_ok d) (seq 0 (List.length (elements d))).

(** [document.getElementById(s)]: the first element of the document, in
    tree order, whose ID is [s]; an element with an empty [id] has no ID. *)
Definition getElementById (d : DOM) (s : string) : option node :=
  if String.eqb s "" then None
  else find (fun n => connected d n && String.eqb (idOf d n) s)
            (seq 0 (List.length (elements d))).

(** [a.contains(b)]: [b] is [a] or a descendant of [a]. *)
Fixpoint contains_fuel (d : DOM) (fuel : nat) (a b : node) : bool :=
  if a =? b then true
  else match fuel with
       | 0 => false
       | S f => match parentOf d b with
                | Some p => contains_fuel d f a p
                | None => false
                end
       end.

Definition contains (d : DOM) (a b : node) : bool :=
  contains_fuel d (List.length (elements d)) a b.

(** ** The manager and the page *)

(** [interface ElementState].  [originalStyles] is an object filled key by
    key: an association list in insertion order. *)
Record ElementState : Type := mkElementState {
  originalStyles : list (StyleProp * string);
  hiddenElements : list (node * string)   (* { element, originalDisplay } *)
}.

Inductive LogEntry : Type :=
| Warn (msg : string)
| Error (msg : string).

(** The fields of [FullscreenManager] and the part of the page the manager
    reads and writes. *)
Record State : Type := mkState {
  elementStates : list (string * ElementState);  (* Map<string, ElementState> *)
  fullscreenStyleElement : option nat;           (* StyleElement | null *)
  cleanupTimer : option nat;                     (* NodeJS.Timeout | null *)
  inlineStyle : node -> StyleProp -> string;     (* element.style[prop] *)
  headStyles : list (nat * string);   (* <style> children of document.head *)
  nextStyleElement : nat;             (* identity of the next created element *)
  timers : list nat;                  (* pending timeouts *)
  nextTimer : nat;
  console : list LogEntry
}.

Definition with_elementStates (m : list (string * ElementState)) (s : State) : State :=
  mkState m (fullscreenStyleElement s) (cleanupTimer s) (inlineStyle s)
          (headStyles s) (nextStyleElement s) (timers s) (nextTimer s) (console s).

Definition with_fullscreenStyleElement (h : option nat) (s : State) : State :=
  mkState (elementStates s) h (cleanupTimer s) (inlineStyle s)
          (headStyles s) (nextStyleElement s) (timers s) (nextTimer s) (console s).

Definition with_cleanupTimer (t : option nat) (s : State) : State :=
  mkState (elementStates s) (fullscreenStyleElement s) t (inlineStyle s)
          (headStyles s) (nextStyleElement s) (timers s) (nextTimer s) (console s).

Definition with_inlineStyle (f : node -> StyleProp -> string) (s : State) : State :=
  mkState (elementStates s) (fullscreenStyleElement s) (cleanupTimer s) f
          (headStyles s) (nextStyleElement s) (timers s) (nextTimer s) (console s).

Definition with_headStyles (h : list (nat * string)) (s : State) : State :=
  mkState (elementStates s) (fullscreenStyleElement s) (cleanupTimer s) (inlineStyle s)
          h (nextStyleElement s) (timers s) (nextTimer s) (console s).

Definition with_nextStyleElement (n : nat) (s : State) : State :=
  mkState (elementStates s) (fullscreenStyleElement s) (cleanupTimer s) (inlineStyle s)
          (headStyles s) n (timers s) (nextTimer s) (console s).

Definition with_timers (t : list nat) (n : nat) (s : State) : State :=
  mkState (elementStates s) (fullscreenStyleElement s) (cleanupTimer s) (inlineStyle s)
          (headStyles s) (nextStyleElement s) t n (console s).

Definition log (e : LogEntry) (s : State) : State :=
  mkState (elementStates s) (fullscreenStyleElement s) (cleanupTimer s) (inlineStyle s)
          (headStyles s) (nextStyleElement s) (timers s) (nextTimer s) (console s ++ [e]).

(** [element.style[prop] = value]. *)
Definition setStyle (e : node) (p : StyleProp) (v : string) (s : State) : State :=
  with_inlineStyle
    (fun n q => if (n =? e) && prop_eqb q p then v else inlineStyle s n q) s.

(** [window.getComputedStyle(e).display]. *)
Definition computedDisplay (d : DOM) (s : State) (e : node) : string :=
  if String.eqb (inlineStyle s e display) "" then sheetDisplayOf d e
  else inlineStyle s e display.

(** *** The [Map] of saved states

    A JavaScript [Map] keeps its entries in insertion order; [set] on a
    present key replaces the value in place, on an absent key it appends. *)

Fixpoint Map_has (k : string) (m : list (string * ElementState)) : bool :=
  match m with
  | [] => false
  | (k', _) :: r => if String.eqb k' k then true else Map_has k r
  end.

Fixpoint Map_get (k : string) (m : list (string * ElementState)) : option ElementState :=
  match m with
  | [] => None
  | (k', v) :: r => if String.eqb k' k then Some v else Map_get k r
  end.

Fixpoint Map_set (k : string) (v : ElementState) (m : list (string * ElementState))
  : list (string * ElementState) :=
  match m with
  | [] => [(k, v)]
  | (k', v') :: r =>
      if String.eqb k' k then (k', v) :: r else (k', v') :: Map_set k v r
  end.

Definition Map_delete (k : string) (m : list (string * ElementState))
  : list (string * ElementState) :=
  filter (fun kv => negb (String.eqb (fst kv) k)) m.

Definition Map_keys (m : list (string * ElementState)) : list string := map fst m.

(** ** String replacement

    [style.replace(/\$\{blockId\}/g, replacement)]: every match of the
    literal [${blockId}], found from left to right without overlap, is
    replaced by the expansion of the replacement template. *)

Definition placeholder : string := "${blockId}".

Fixpoint dropString (n : nat) (s : string) : string :=
  match n, s with
  | S n', String _ r => dropString n' r
  | _, _ => s
  end.

(** [GetSubstitution] of ECMAScript for a pattern without capture groups:
    in the template, [$$] stands for a dollar sign, [$&] for the match,
    [$`] for the text before the match and [$'] for the text after it; a
    dollar sign followed by anything else stands for itself. *)
Fixpoint getSubstitution (matched before after template : string) : string :=
  match template with
  | EmptyString => EmptyString
  | String c t =>
      if Ascii.eqb c "$" then
        match t with
        | EmptyString => String c EmptyString
        | String c2 r =>
            if Ascii.eqb c2 "$" then String "$" (getSubstitution matched before after r)
            else if Ascii.eqb c2 "&" then
              (matched ++ getSubstitution matched before after r)%string
            else if Ascii.eqb c2 "`" then
              (before ++ getSubstitution matched before after r)%string
            else if Ascii.eqb c2 "'" then
              (after ++ getSubstitution matched before after r)%string
            else String c (getSubstitution matched before after t)
        end
      else String c (getSubstitution matched before after t)
  end.

(** The scan: [before] is the part of the subject already passed, [s] the
    part still to scan.  Every step consumes a character of [s], so
    [String.length s] steps are enough. *)
Fixpoint replaceAll_fuel (fuel : nat) (template before s : string) : string :=
  match fuel with
  | 0 => s
  | S f =>
      match s with
      | EmptyString => EmptyString
      | String c r =>
          if String.prefix placeholder s then
            let after := dropString (String.length placeholder) s in
            (getSubstitution placeholder before after template
               ++ replaceAll_fuel f template (before ++ placeholder) after)%string
          else String c (replaceAll_fuel f template (before ++ String c "")%string r)
      end
  end.

Definition replaceAll (template s : string) : string :=
  replaceAll_fuel (String.length s) template "" s.

(** The selector the placeholder stands for: the template literal
    [`#${blockId} `]. *)
Definition scopedSelector (blockId : string) : string :=
  ("#" ++ blockId ++ " ")%string.

(** [private processFullscreenStyle(style, blockId)]. *)
Definition processFullscreenStyle (style blockId : string) : string :=
  replaceAll (scopedSelector blockId) style.

(** The number of positions of [s] at which [pat] occurs. *)
Fixpoint occurrences (pat s : string) : nat :=
  match s with
  | EmptyString => 0
  | String _ r => (if String.prefix pat s then 1 else 0) + occurrences pat r
  end.

(** ** Methods of the manager *)

(** [private addScopedStyle(cssString)]: a new [<style>] element with the
    text, appended to [document.head]. *)
Definition addScopedStyle (cssString : string) (s : State) : nat * State :=
  let h := nextStyleElement s in
  (h, with_nextStyleElement (S h) (with_headStyles (headStyles s ++ [(h, cssString)]) s)).

(** [styleElement.parentNode]: the head, as long as the element is in it. *)
Definition hasParentNode (h : nat) (s : State) : bool :=
  existsb (fun e => fst e =? h) (headStyles s).

(** [private removeAddedStyle(styleElementToRemove)]. *)
Definition removeAddedStyle (styleElementToRemove : option nat) (s : State) : State :=
  match styleElementToRemove with
  | Some h =>
      if hasParentNode h s
      then with_headStyles (filter (fun e => negb (fst e =? h)) (headStyles s)) s
      else s
  | None => s
  end.

(** [v || '']. *)
Definition or_empty (v : string) : string :=
  if String.eqb v "" then "" else v.

(** The body of [Array.from(current.parentElement.children).forEach]. *)
Definition hideSibling (d : DOM) (current sibling : node)
    (acc : list (node * string) * State) : list (node * string) * State :=
  let '(hidden, s) := acc in
  if negb (sibling =? current) && negb (contains d current sibling)
     && negb (contains d sibling current)
  then (hidden ++ [(sibling, computedDisplay d s sibling)],
        setStyle sibling display "none" s)
  else acc.

(** The loop [while (current && current !== document.body)].  The parent
    of a node is numbered before it, so the loop ends within as many
    rounds as there are elements ([hideSiblings_fuel_enough]). *)
Fixpoint hideSiblings (d : DOM) (fuel : nat) (current : option node)
    (acc : list (node * string) * State) : list (node * string) * State :=
  match fuel with
  | 0 => acc
  | S f =>
      match current with
      | None => acc
      | Some cur =>
          if cur =? body d then acc
          else
            let acc' :=
              match parentOf d cur with
              | Some p =>
                  fold_left (fun a sibling => hideSibling d cur sibling a)
                            (childrenOf d p) acc
              | None => acc
              end in
            hideSiblings d f (parentOf d cur) acc'
      end
  end.

(** [private saveElementState(element)]: the saved state and the page
    with the siblings hidden. *)
Definition saveElementState (d : DOM) (element : node) (s : State)
  : ElementState * State :=
  let styles :=
    map (fun prop => (prop, or_empty (inlineStyle s element prop))) STYLES_TO_SAVE in
  let '(hidden, s') :=
    hideSiblings d (S (List.length (elements d))) (Some element) ([], s) in
  (mkElementState styles hidden, s').

(** [private restoreElementState(element, state)].  Every recorded hidden
    element is an element node, so the guard on [nodeType] holds and the
    assignment in the [try] does not throw. *)
Definition restoreElementState (element : node) (state : ElementState) (s : State)
  : State :=
  let s1 := fold_left (fun s prop => setStyle element prop "" s) STYLES_TO_SAVE s in
  let s2 := fold_left (fun s pv => setStyle element (fst pv) (snd pv) s)
                      (originalStyles state) s1 in
  fold_left (fun s he => setStyle (fst he) display (snd he) s)
            (hiddenElements state) s2.

(** How a call ends. *)
Inductive JsError : Type := TypeError.

Inductive Completion : Type :=
| Returned
| Thrown (e : JsError).

(** The [try] block of [toggleFullscreen].  A reference is [None] for
    [null]; reading a property of [null] ([element.style] in
    [saveElementState], [element.id] in the exit branch) throws a
    [TypeError] before anything is written. *)
Definition toggleFullscreen_try (d : DOM) (element : option node)
    (isFullscreen : bool) (fullscreenStyle : string) (s : State)
  : Completion * State :=
  if isFullscreen then
    match element with
    | None => (Thrown TypeError, s)
    | Some e =>
        let '(state, s1) := saveElementState d e s in
        let s2 := with_elementStates (Map_set (idOf d e) state (elementStates s1)) s1 in
        let s3 := fold_left (fun s pv => setStyle e (fst pv) (snd pv) s)
                            FULLSCREEN_STYLES s2 in
        if String.eqb fullscreenStyle "" then (Returned, s3)
        else
          let processedStyle := processFullscreenStyle fullscreenStyle (idOf d e) in
          let '(h, s4) := addScopedStyle processedStyle s3 in
          (Returned, with_fullscreenStyleElement (Some h) s4)
    end
  else
    match element with
    | None => (Thrown TypeError, s)
    | Some e =>
        match Map_get (idOf d e) (elementStates s) with
        | None => (Returned, log (Warn "No saved state found for element") s)
        | Some state =>
            let s1 := restoreElementState e state s in
            let s2 := with_elementStates
                        (Map_delete (idOf d e) (elementStates s1)) s1 in
            match fullscreenStyleElement s2 with
            | Some h =>
                (Returned,
                 with_fullscreenStyleElement None (removeAddedStyle (Some h) s2))
            | None => (Returned, s2)
            end
        end
    end.

(** [public toggleFullscreen(element, isFullscreen, fullscreenStyle = '')]:
    the [catch] logs the error and the call returns. *)
Definition toggleFullscreen (d : DOM) (element : option node)
    (isFullscreen : bool) (fullscreenStyle : string) (s : State)
  : Completion * State :=
  match toggleFullscreen_try d element isFullscreen fullscreenStyle s with
  | (Thrown _, s') => (Returned, log (Error "Error toggling fullscreen:") s')
  | r => r
  end.

(** [public isElementFullscreen(element)]. *)
Definition isElementFullscreen (d : DOM) (element : node) (s : State) : bool :=
  Map_has (idOf d element) (elementStates s).

(** [public exitFullscreen(element)]. *)
Definition exitFullscreen (d : DOM) (element : node) (s : State)
  : Completion * State :=
  if isElementFullscreen d element s
  then toggleFullscreen d (Some element) false "" s
  else (Returned, s).

(** [setTimeout] and [clearTimeout]. *)
Definition setTimeout (delay : nat) (s : State) : nat * State :=
  let t := nextTimer s in
  (t, with_timers (timers s ++ [t]) (S t) s).

Definition clearTimeout (t : nat) (s : State) : State :=
  with_timers (filter (fun t' => negb (t' =? t)) (timers s)) (nextTimer s) s.

(** The callback of [this.elementStates.forEach] in [cleanup]. *)
Definition cleanupEntry (d : DOM) (elementId : string) (s : State) : State :=
  match getElementById d elementId with
  | Some element =>
      match exitFullscreen d element s with
      | (Returned, s') => s'
      | (Thrown _, s') =>
          let s'' := log (Warn "Failed to cleanup element with ID") s' in
          with_elementStates (Map_delete elementId (elementStates s'')) s''
      end
  | None => with_elementStates (Map_delete elementId (elementStates s)) s
  end.

(** [Map.prototype.forEach]: the entries are visited in insertion order;
    an entry deleted before its turn is not visited. *)
Definition Map_forEach (f : string -> State -> State) (s : State) : State :=
  fold_left (fun s k => if Map_has k (elementStates s) then f k s else s)
            (Map_keys (elementStates s)) s.

(** [public cleanup()]. *)
Definition cleanup (d : DOM) (s : State) : State :=
  let s1 := match cleanupTimer s with
            | Some t => with_cleanupTimer None (clearTimeout t s)
            | None => s
            end in
  let s2 := Map_forEach (cleanupEntry d) s1 in
  let s3 := with_elementStates [] s2 in
  match fullscreenStyleElement s3 with
  | Some h => with_fullscreenStyleElement None (removeAddedStyle (Some h) s3)
  | None => s3
  end.

(** [public schedulePeriodicCleanup(intervalMs = 300000)]: the pending
    timer is replaced by a new one. *)
Definition schedulePeriodicCleanup (intervalMs : nat) (s : State) : State :=
  let s1 := match cleanupTimer s with
            | Some t => clearTimeout t s
            | None => s
            end in
  let '(t, s2) := setTimeout intervalMs s1 in
  with_cleanupTimer (Some t) s2.

(** The identifiers the sweep finds invalid. *)
Definition invalidIds (d : DOM) (s : State) : list string :=
  filter (fun elementId => match getElementById d elementId with
                           | Some _ => false
                           | None => true
                           end)
         (Map_keys (elementStates s)).

(** The callback [schedulePeriodicCleanup] hands to [setTimeout]: one tick
    of the sweep. *)
Definition sweepTick (d : DOM) (intervalMs : nat) (s : State) : State :=
  let ids := invalidIds d s in
  let s1 := with_elementStates
              (fold_left (fun m k => Map_delete k m) ids (elementStates s)) s in
  schedulePeriodicCleanup intervalMs s1.

(** [new FullscreenManager()] on a page. *)
Definition newManager (style : node -> StyleProp -> string) : State :=
  mkState [] None None style [] 0 [] 1 [].

(** * Properties *)

(** ** Strings and the saved-state map *)

Lemma or_empty_id (v : string) : or_empty v = v.
Proof.
  unfold or_empty. destruct (String.eqb v "") eqn:E; [|reflexivity].
  apply String.eqb_eq in E. congruence.
Qed.

Lemma Map_has_get (k : string) m :
  Map_has k m = match Map_get k m with Some _ => true | None => false end.
Proof.
  induction m as [|[k' v] r IH]; simpl; [reflexivity|].
  destruct (String.eqb k' k); auto.
Qed.

Lemma Map_get_set_same (k : string) v m : Map_get k (Map_set k v m) = Some v.
Proof.
  induction m as [|[k' v'] r IH]; simpl.
  - rewrite String.eqb_refl. reflexivity.
  - destruct (String.eqb k' k) eqn:E; simpl; rewrite E; auto.
Qed.

Lemma Map_get_set_other (k k' : string) v m :
  k' <> k -> Map_get k' (Map_set k v m) = Map_get k' m.
Proof.
  intros Hne. induction m as [|[k0 v0] r IH]; simpl.
  - destruct (String.eqb k k') eqn:E; [|reflexivity].
    apply String.eqb_eq in E. congruence.
  - destruct (String.eqb k0 k) eqn:E; simpl.
    + apply String.eqb_eq in E. subst k0.
      destruct (String.eqb k k') eqn:E'; [|reflexivity].
      apply String.eqb_eq in E'. congruence.
    + destruct (String.eqb k0 k'); auto.
Qed.

Lemma Map_has_delete_same (k : string) m : Map_has k (Map_delete k m) = false.
Proof.
  induction m as [|[k' v] r IH]; simpl; [reflexivity|].
  destruct (String.eqb k' k) eqn:E; simpl; [exact IH|].
  rewrite E. exact IH.
Qed.

Lemma Map_get_delete_same (k : string) m : Map_get k (Map_delete k m) = None.
Proof.
  pose proof (Map_has_delete_same k m) as H. rewrite Map_has_get in H.
  destruct (Map_get k (Map_delete k m)); [discriminate|reflexivity].
Qed.

Lemma Map_get_delete_other (k k' : string) m :
  k' <> k -> Map_get k' (Map_delete k m) = Map_get k' m.
Proof.
  intros Hne. induction m as [|[k0 v0] r IH]; simpl; [reflexivity|].
  destruct (String.eqb k0 k) eqn:E; simpl.
  - apply String.eqb_eq in E. subst k0.
    destruct (String.eqb k k') eqn:E'; [|exact IH].
    apply String.eqb_eq in E'. congruence.
  - destruct (String.eqb k0 k'); auto.
Qed.

Lemma Map_keys_set_present (k : string) v m :
  Map_has k m = true -> Map_keys (Map_set k v m) = Map_keys m.
Proof.
  induction m as [|[k' v'] r IH]; simpl; [discriminate|].
  destruct (String.eqb k' k) eqn:E; simpl; [reflexivity|].
  intros H. f_equal. exact (IH H).
Qed.

Lemma Map_keys_set_absent (k : string) v m :
  Map_has k m = false -> Map_keys (Map_set k v m) = Map_keys m ++ [k].
Proof.
  induction m as [|[k' v'] r IH]; simpl; [reflexivity|].
  destruct (String.eqb k' k) eqn:E; simpl; [discriminate|].
  intros H. f_equal. exact (IH H).
Qed.

Lemma Map_has_In (k : string) m : Map_has k m = true <-> In k (Map_keys m).
Proof.
  induction m as [|[k' v] r IH]; simpl.
  - split; [discriminate|tauto].
  - destruct (String.eqb k' k) eqn:E.
    + apply String.eqb_eq in E. tauto.
    + apply String.eqb_neq in E. tauto.
Qed.

(** The keys of the map stay pairwise distinct. *)
Lemma Map_set_NoDup (k : string) v m :
  NoDup (Map_keys m) -> NoDup (Map_keys (Map_set k v m)).
Proof.
  intros H. destruct (Map_has k m) eqn:E.
  - rewrite Map_keys_set_present; assumption.
  - rewrite Map_keys_set_absent by assumption.
    apply NoDup_app; [assumption|repeat constructor; simpl; tauto|].
    intros x Hx [<-|[]]. apply Map_has_In in Hx. congruence.
Qed.

Lemma Map_delete_NoDup (k : string) m :
  NoDup (Map_keys m) -> NoDup (Map_keys (Map_delete k m)).
Proof.
  unfold Map_keys, Map_delete. induction m as [|[k' v] r IH]; simpl; [auto|].
  intros H. inversion H as [|? ? Hn Hr]; subst.
  destruct (String.eqb k' k); simpl; [auto|].
  constructor; [|auto].
  intros Hin. apply Hn. apply in_map_iff in Hin as [[a b] [<- Hab]].
  apply filter_In in Hab as [Hab _]. apply in_map_iff. exists (a, b). auto.
Qed.

(** ** Writing inline styles *)

Section Writes.
Variable W : Type.
Variables (fn : W -> node) (fp : W -> StyleProp) (fv : W -> string).

(** A [forEach] whose body is one assignment to [x.style[p]]. *)
Definition writes (l : list W) (s : State) : State :=
  fold_left (fun s w => setStyle (fn w) (fp w) (fv w) s) l s.

Lemma writes_app l1 l2 s : writes (l1 ++ l2) s = writes l2 (writes l1 s).
Proof. unfold writes. apply fold_left_app. Qed.

Lemma writes_frame l s :
  elementStates (writes l s) = elementStates s
  /\ fullscreenStyleElement (writes l s) = fullscreenStyleElement s
  /\ cleanupTimer (writes l s) = cleanupTimer s
  /\ headStyles (writes l s) = headStyles s
  /\ nextStyleElement (writes l s) = nextStyleElement s
  /\ timers (writes l s) = timers s
  /\ nextTimer (writes l s) = nextTimer s
  /\ console (writes l s) = console s.
Proof.
  revert s. induction l as [|w l IH]; intros s; simpl.
  - repeat split.
  - specialize (IH (setStyle (fn w) (fp w) (fv w) s)). simpl in IH. exact IH.
Qed.

Lemma writes_untouched l s n q :
  (forall w, In w l -> fn w = n -> fp w = q -> False) ->
  inlineStyle (writes l s) n q = inlineStyle s n q.
Proof.
  revert s. induction l as [|w l IH]; intros s H; simpl; [reflexivity|].
  unfold writes in IH. rewrite IH by (intros w' Hw'; apply H; right; exact Hw').
  simpl. destruct (n =? fn w) eqn:En; [|reflexivity].
  destruct (prop_eqb q (fp w)) eqn:Ep; [|reflexivity].
  exfalso. apply Nat.eqb_eq in En. apply prop_eqb_eq in Ep.
  apply (H w); [left; reflexivity|congruence|congruence].
Qed.

Lemma writes_last l s w :
  In w l ->
  (forall w1 w2, In w1 l -> In w2 l -> fn w1 = fn w2 -> fp w1 = fp w2 -> w1 = w2) ->
  inlineStyle (writes l s) (fn w) (fp w) = fv w.
Proof.
  revert s. induction l as [|w0 l IH]; intros s Hin Hinj; [contradiction|].
  simpl. destruct (in_dec (fun a b : nat * StyleProp =>
                     ltac:(decide equality; [apply StyleProp_eq_dec|apply Nat.eq_dec])
                     : {a = b} + {a <> b})
                   (fn w, fp w) (map (fun x => (fn x, fp x)) l)) as [Hl|Hl].
  - apply in_map_iff in Hl as [w' [Hw' Hinl]].
    assert (w' = w).
    { destruct Hin as [->|Hin].
      - apply Hinj; [right; assumption|left; reflexivity|congruence|congruence].
      - apply Hinj; [right; assumption|right; assumption|congruence|congruence]. }
    subst w'. unfold writes in IH. apply IH; [assumption|].
    intros w1 w2 H1 H2. apply Hinj; right; assumption.
  - destruct Hin as [->|Hin].
    + fold (writes l (setStyle (fn w) (fp w) (fv w) s)).
      rewrite writes_untouched.
      * simpl. rewrite Nat.eqb_refl, prop_eqb_refl. reflexivity.
      * intros w' Hw' E1 E2. apply Hl. apply in_map_iff. exists w'.
        split; [congruence|assumption].
    + exfalso. apply Hl. apply in_map_iff. exists w. auto.
Qed.
End Writes.

(** ** The element tree *)

Lemma nodupb_NoDup (l : list node) : nodupb l = true -> NoDup l.
Proof.
  induction l as [|x r IH]; simpl; intros H; constructor.
  - apply andb_prop in H as [H _]. intros Hin.
    apply negb_true_iff in H.
    assert (existsb (Nat.eqb x) r = true); [|congruence].
    apply existsb_exists. exists x. split; [assumption|apply Nat.eqb_refl].
  - apply andb_prop in H as [_ H]. auto.
Qed.

Section Tree.
Variable d : DOM.
Hypothesis wf : dom_wf d = true.

Lemma element_ok_of (n : node) :
  n < List.length (elements d) -> element_ok d n = true.
Proof.
  intros Hn. unfold dom_wf in wf. rewrite forallb_forall in wf.
  apply wf. apply in_seq. lia.
Qed.

Lemma parentOf_in_range (n p : node) :
  parentOf d n = Some p -> n < List.length (elements d).
Proof.
  unfold parentOf. destruct (nth_error (elements d) n) eqn:E; [|discriminate].
  intros _. apply nth_error_Some. congruence.
Qed.

Lemma childrenOf_in_range (n c : node) :
  In c (childrenOf d n) -> n < List.length (elements d).
Proof.
  unfold childrenOf. destruct (nth_error (elements d) n) eqn:E; [|contradiction].
  intros _. apply nth_error_Some. congruence.
Qed.

(** A parent is numbered before its child. *)
Lemma parent_before (n p : node) : parentOf d n = Some p -> p < n.
Proof.
  intros H. pose proof (element_ok_of (parentOf_in_range _ H)) as Hok.
  unfold element_ok in Hok. rewrite H in Hok.
  apply andb_prop in Hok as [Hok _]. apply andb_prop in Hok as [Hok _].
  apply Nat.ltb_lt. exact Hok.
Qed.

(** A listed child has the listing element as its parent. *)
Lemma child_parent (n c : node) : In c (childrenOf d n) -> parentOf d c = Some n.
Proof.
  intros H. pose proof (element_ok_of (childrenOf_in_range _ _ H)) as Hok.
  unfold element_ok in Hok.
  apply andb_prop in Hok as [Hok _]. apply andb_prop in Hok as [_ Hok].
  rewrite forallb_forall in Hok. specialize (Hok c H).
  destruct (parentOf d c) as [p|]; [|discriminate].
  apply Nat.eqb_eq in Hok. congruence.
Qed.

Lemma children_NoDup (n : node) : NoDup (childrenOf d n).
Proof.
  unfold childrenOf at 1.
  destruct (nth_error (elements d) n) eqn:E; [|constructor].
  assert (Hn : n < List.length (elements d)) by (apply nth_error_Some; congruence).
  pose proof (element_ok_of Hn) as Hok. unfold element_ok in Hok.
  apply andb_prop in Hok as [_ Hok]. apply nodupb_NoDup in Hok.
  unfold childrenOf in Hok. rewrite E in Hok. exact Hok.
Qed.
End Tree.

(** ** Hiding the siblings *)

Section Hiding.
Variable d : DOM.

(** The siblings [hideSibling] accepts at one level. *)
Definition siblingsToHide (cur : node) : list node :=
  match parentOf d cur with
  | Some p =>
      filter (fun sibling =>
                negb (sibling =? cur) && negb (contains d cur sibling)
                && negb (contains d sibling cur))
             (childrenOf d p)
  | None => []
  end.

(** The elements the loop of [saveElementState] hides, in its order. *)
Fixpoint hideTargets (fuel : nat) (current : option node) : list node :=
  match fuel with
  | 0 => []
  | S f =>
      match current with
      | None => []
      | Some cur =>
          if cur =? body d then []
          else siblingsToHide cur ++ hideTargets f (parentOf d cur)
      end
  end.

(** Recording and hiding a list of elements, one after the other. *)
Definition hideList (l : list node) (acc : list (node * string) * State)
  : list (node * string) * State :=
  fold_left (fun a n =>
               (fst a ++ [(n, computedDisplay d (snd a) n)],
                setStyle n display "none" (snd a))) l acc.

Lemma hideList_app l1 l2 acc :
  hideList (l1 ++ l2) acc = hideList l2 (hideList l1 acc).
Proof. unfold hideList. apply fold_left_app. Qed.

Lemma hideSibling_level cur l acc :
  fold_left (fun a sibling => hideSibling d cur sibling a) l acc
  = hideList (filter (fun sibling =>
                        negb (sibling =? cur) && negb (contains d cur sibling)
                        && negb (contains d sibling cur)) l) acc.
Proof.
  revert acc. induction l as [|x l IH]; intros acc; simpl; [reflexivity|].
  rewrite IH. unfold hideSibling at 1. destruct acc as [hidden s].
  destruct (negb (x =? cur) && negb (contains d cur x) && negb (contains d x cur));
    reflexivity.
Qed.

Lemma hideSiblings_hideList fuel current acc :
  hideSiblings d fuel current acc = hideList (hideTargets fuel current) acc.
Proof.
  revert current acc. induction fuel as [|f IH]; intros current acc; simpl.
  - reflexivity.
  - destruct current as [cur|]; [|reflexivity].
    destruct (cur =? body d); [reflexivity|].
    rewrite IH, hideList_app. f_equal.
    unfold siblingsToHide. destruct (parentOf d cur); [|reflexivity].
    apply hideSibling_level.
Qed.

(** The page after [hideList]: every listed element has
    [display: none]. *)
Lemma hideList_state l hidden s :
  snd (hideList l (hidden, s))
  = writes (fun n => n) (fun _ => display) (fun _ => "none") l s.
Proof.
  revert hidden s. induction l as [|x l IH]; intros hidden s; simpl.
  - reflexivity.
  - unfold hideList in IH. rewrite IH. reflexivity.
Qed.

(** The record after [hideList]: when no element is listed twice, every
    one is recorded with the display it had before any was hidden. *)
Lemma hideList_record l hidden s :
  NoDup l ->
  fst (hideList l (hidden, s))
  = hidden ++ map (fun n => (n, computedDisplay d s n)) l.
Proof.
  revert hidden s. induction l as [|x l IH]; intros hidden s Hnd; simpl.
  - rewrite app_nil_r. reflexivity.
  - inversion Hnd as [|? ? Hx Hl]; subst.
    unfold hideList in IH. rewrite IH by assumption.
    rewrite <- app_assoc. simpl. f_equal. f_equal.
    apply map_ext_in. intros n Hn. f_equal.
    unfold computedDisplay. simpl.
    destruct (n =? x) eqn:E; [|reflexivity].
    apply Nat.eqb_eq in E. subst n. contradiction.
Qed.

Hypothesis wf : dom_wf d = true.

Lemma siblingsToHide_parent cur h :
  In h (siblingsToHide cur) ->
  exists p, parentOf d cur = Some p /\ parentOf d h = Some p /\ h <> cur.
Proof.
  unfold siblingsToHide. destruct (parentOf d cur) as [p|] eqn:E; [|contradiction].
  intros H. apply filter_In in H as [Hin Hc]. exists p.
  split; [reflexivity|]. split; [exact (child_parent d wf _ _ Hin)|].
  apply andb_prop in Hc as [Hc _]. apply andb_prop in Hc as [Hc _].
  apply negb_true_iff in Hc. apply Nat.eqb_neq in Hc. exact Hc.
Qed.

(** Every hidden element is the child of a proper ancestor of the
    element the loop starts from, and is not that element. *)
Lemma hideTargets_parent fuel cur h :
  In h (hideTargets fuel (Some cur)) ->
  exists p, parentOf d h = Some p /\ p < cur /\ h <> cur.
Proof.
  revert cur. induction fuel as [|f IH]; intros cur; simpl; [contradiction|].
  destruct (cur =? body d); [contradiction|].
  intros H. apply in_app_or in H as [H|H].
  - apply siblingsToHide_parent in H as [p [Hc [Hh Hne]]].
    exists p. split; [assumption|]. split; [|assumption].
    exact (parent_before d wf _ Hc).
  - destruct (parentOf d cur) as [p|] eqn:E.
    + apply IH in H as [p' [Hh [Hlt Hne]]].
      pose proof (parent_before d wf _ E) as Hp.
      exists p'. split; [assumption|]. split; [lia|].
      intros ->. rewrite E in Hh. injection Hh as ->. lia.
    + destruct f; contradiction.
Qed.

Lemma hideTargets_not_self fuel cur : ~ In cur (hideTargets fuel (Some cur)).
Proof.
  intros H. apply hideTargets_parent in H as [p [_ [_ Hne]]]. congruence.
Qed.

(** No element is hidden twice. *)
Lemma hideTargets_NoDup fuel current : NoDup (hideTargets fuel current).
Proof.
  revert current. induction fuel as [|f IH]; intros current; simpl; [constructor|].
  destruct current as [cur|]; [|constructor].
  destruct (cur =? body d); [constructor|].
  apply NoDup_app.
  - unfold siblingsToHide. destruct (parentOf d cur); [|constructor].
    apply NoDup_filter. apply children_NoDup. exact wf.
  - apply IH.
  - intros h H1 H2.
    apply siblingsToHide_parent in H1 as [p [Hc [Hh _]]].
    rewrite Hc in H2. apply hideTargets_parent in H2 as [p' [Hh' [Hlt _]]].
    rewrite Hh in Hh'. injection Hh' as ->. lia.
Qed.

(** The loop ends before the fuel does: more fuel changes nothing. *)
Lemma hideSiblings_fuel_enough f1 f2 cur acc :
  cur < f1 -> cur < f2 ->
  hideSiblings d f1 (Some cur) acc = hideSiblings d f2 (Some cur) acc.
Proof.
  revert f2 cur acc. induction f1 as [|f1 IH]; intros f2 cur acc H1 H2; [lia|].
  destruct f2 as [|f2]; [lia|]. simpl.
  destruct (cur =? body d); [reflexivity|].
  destruct (parentOf d cur) as [p|] eqn:E.
  - pose proof (parent_before d wf _ E). apply IH; lia.
  - destruct f1, f2; reflexivity.
Qed.
End Hiding.

(** ** Entering *)

(** The elements [saveElementState] hides for [element]. *)
Definition suppressed (d : DOM) (element : node) : list node :=
  hideTargets d (S (List.length (elements d))) (Some element).

Lemma saveElementState_spec (d : DOM) (element : node) (s : State) :
  dom_wf d = true ->
  saveElementState d element s
  = (mkElementState
       (map (fun p => (p, inlineStyle s element p)) STYLES_TO_SAVE)
       (map (fun n => (n, computedDisplay d s n)) (suppressed d element)),
     writes (fun n => n) (fun _ => display) (fun _ => "none")
            (suppressed d element) s).
Proof.
  intros wf. unfold saveElementState. rewrite hideSiblings_hideList.
  fold (suppressed d element).
  pose proof (hideList_state d (suppressed d element) [] s) as Hs.
  pose proof (hideList_record d [] s (hideTargets_NoDup d wf (S (List.length (elements d))) (Some element))) as Hr.
  fold (suppressed d element) in Hr.
  destruct (hideList d (suppressed d element) ([], s)) as [hidden s'].
  simpl in Hs, Hr. subst hidden s'. f_equal. f_equal.
  apply map_ext. intros p. rewrite or_empty_id. reflexivity.
Qed.

Lemma computedDisplay_restored (d : DOM) (s s' : State) (n : node) :
  inlineStyle s' n display = computedDisplay d s n ->
  computedDisplay d s' n = computedDisplay d s n.
Proof.
  intros H. unfold computedDisplay at 1. rewrite H.
  destruct (String.eqb (computedDisplay d s n) "") eqn:E; [|reflexivity].
  apply String.eqb_eq in E. rewrite E. unfold computedDisplay in E.
  destruct (String.eqb (inlineStyle s n display) "") eqn:E'; [exact E|].
  apply String.eqb_neq in E'. congruence.
Qed.

Lemma computedDisplay_ext (d : DOM) (s s' : State) (n : node) :
  inlineStyle s' n display = inlineStyle s n display ->
  computedDisplay d s' n = computedDisplay d s n.
Proof. intros H. unfold computedDisplay. rewrite H. reflexivity. Qed.

Lemma FULLSCREEN_STYLES_functional (w1 w2 : StyleProp * string) :
  In w1 FULLSCREEN_STYLES -> In w2 FULLSCREEN_STYLES -> fst w1 = fst w2 -> w1 = w2.
Proof.
  unfold FULLSCREEN_STYLES. simpl. intros H1 H2 E.
  repeat (destruct H1 as [<-|H1]; [
    repeat (destruct H2 as [<-|H2]; [reflexivity || discriminate E|]); contradiction|]).
  contradiction.
Qed.

(** The state saved for [e] and the page after the three steps of
    entering: the siblings hidden, the state stored, the fullscreen styles
    applied. *)
Definition savedState (d : DOM) (e : node) (s : State) : ElementState :=
  mkElementState
    (map (fun p => (p, inlineStyle s e p)) STYLES_TO_SAVE)
    (map (fun n => (n, computedDisplay d s n)) (suppressed d e)).

Definition hiddenPage (d : DOM) (e : node) (s : State) : State :=
  writes (fun n => n) (fun _ => display) (fun _ => "none") (suppressed d e) s.

Definition storedPage (d : DOM) (e : node) (s : State) : State :=
  with_elementStates
    (Map_set (idOf d e) (savedState d e s) (elementStates (hiddenPage d e s)))
    (hiddenPage d e s).

Definition enteredPage (d : DOM) (e : node) (s : State) : State :=
  writes (fun _ => e) fst snd FULLSCREEN_STYLES (storedPage d e s).

(** The page after [addScopedStyle] and the assignment of the handle. *)
Definition injectedPage (css : string) (s : State) : State :=
  with_fullscreenStyleElement (Some (nextStyleElement s))
    (snd (addScopedStyle css s)).

Definition styledPage (d : DOM) (e : node) (fs : string) (s : State) : State :=
  if String.eqb fs "" then enteredPage d e s
  else injectedPage (processFullscreenStyle fs (idOf d e)) (enteredPage d e s).

Lemma styledPage_plain (d : DOM) (e : node) (fs : string) (s : State) :
  String.eqb fs "" = true -> styledPage d e fs s = enteredPage d e s.
Proof. intros H. unfold styledPage. rewrite H. reflexivity. Qed.

Lemma styledPage_styled (d : DOM) (e : node) (fs : string) (s : State) :
  String.eqb fs "" = false ->
  styledPage d e fs s
  = injectedPage (processFullscreenStyle fs (idOf d e)) (enteredPage d e s).
Proof. intros H. unfold styledPage. rewrite H. reflexivity. Qed.

Lemma injectedPage_frame (css : string) (s : State) :
  elementStates (injectedPage css s) = elementStates s
  /\ fullscreenStyleElement (injectedPage css s) = Some (nextStyleElement s)
  /\ cleanupTimer (injectedPage css s) = cleanupTimer s
  /\ inlineStyle (injectedPage css s) = inlineStyle s
  /\ headStyles (injectedPage css s) = headStyles s ++ [(nextStyleElement s, css)]
  /\ nextStyleElement (injectedPage css s) = S (nextStyleElement s)
  /\ timers (injectedPage css s) = timers s
  /\ nextTimer (injectedPage css s) = nextTimer s
  /\ console (injectedPage css s) = console s.
Proof. repeat split. Qed.

Lemma toggleFullscreen_enter_eq (d : DOM) (e : node) (fs : string) (s : State) :
  dom_wf d = true ->
  toggleFullscreen d (Some e) true fs s = (Returned, styledPage d e fs s).
Proof.
  intros wf. unfold toggleFullscreen, toggleFullscreen_try.
  rewrite (saveElementState_spec d e s wf). unfold styledPage.
  destruct (String.eqb fs ""); reflexivity.
Qed.

Lemma hiddenPage_frame (d : DOM) (e : node) (s : State) :
  elementStates (hiddenPage d e s) = elementStates s
  /\ fullscreenStyleElement (hiddenPage d e s) = fullscreenStyleElement s
  /\ cleanupTimer (hiddenPage d e s) = cleanupTimer s
  /\ headStyles (hiddenPage d e s) = headStyles s
  /\ nextStyleElement (hiddenPage d e s) = nextStyleElement s
  /\ timers (hiddenPage d e s) = timers s
  /\ nextTimer (hiddenPage d e s) = nextTimer s
  /\ console (hiddenPage d e s) = console s.
Proof. apply writes_frame. Qed.

Lemma enteredPage_frame (d : DOM) (e : node) (s : State) :
  elementStates (enteredPage d e s)
  = Map_set (idOf d e) (savedState d e s) (elementStates s)
  /\ fullscreenStyleElement (enteredPage d e s) = fullscreenStyleElement s
  /\ cleanupTimer (enteredPage d e s) = cleanupTimer s
  /\ headStyles (enteredPage d e s) = headStyles s
  /\ nextStyleElement (enteredPage d e s) = nextStyleElement s
  /\ timers (enteredPage d e s) = timers s
  /\ nextTimer (enteredPage d e s) = nextTimer s
  /\ console (enteredPage d e s) = console s.
Proof.
  destruct (hiddenPage_frame d e s) as (F1 & F2 & F3 & F4 & F5 & F6 & F7 & F8).
  destruct (writes_frame (fun _ : StyleProp * string => e) fst snd
              FULLSCREEN_STYLES (storedPage d e s))
    as (G1 & G2 & G3 & G4 & G5 & G6 & G7 & G8).
  unfold enteredPage.
  rewrite G1, G2, G3, G4, G5, G6, G7, G8. unfold storedPage.
  cbn [elementStates fullscreenStyleElement cleanupTimer headStyles
       nextStyleElement timers nextTimer console with_elementStates].
  rewrite F1. repeat split; assumption.
Qed.

Lemma enteredPage_self (d : DOM) (e : node) (s : State) (p : StyleProp) (v : string) :
  In (p, v) FULLSCREEN_STYLES -> inlineStyle (enteredPage d e s) e p = v.
Proof.
  intros Hin. unfold enteredPage.
  apply (writes_last (fun _ : StyleProp * string => e) fst snd
           FULLSCREEN_STYLES (storedPage d e s) (p, v) Hin).
  intros w1 w2 H1 H2 _. apply FULLSCREEN_STYLES_functional; assumption.
Qed.

Lemma enteredPage_hidden (d : DOM) (e : node) (s : State) (n : node) :
  ~ In e (suppressed d e) ->
  In n (suppressed d e) -> inlineStyle (enteredPage d e s) n display = "none".
Proof.
  intros Hnot Hin. unfold enteredPage. rewrite writes_untouched.
  - unfold storedPage. cbn [inlineStyle with_elementStates]. unfold hiddenPage.
    apply (writes_last (fun n : node => n) (fun _ => display) (fun _ => "none")
             (suppressed d e) s n Hin).
    intros w1 w2 _ _ E _. exact E.
  - intros w _ E _. subst n. contradiction.
Qed.

Lemma enteredPage_other (d : DOM) (e : node) (s : State) (n : node) (q : StyleProp) :
  n <> e -> ~ In n (suppressed d e) \/ q <> display ->
  inlineStyle (enteredPage d e s) n q = inlineStyle s n q.
Proof.
  intros Hne Hor. unfold enteredPage. rewrite writes_untouched.
  - unfold storedPage. cbn [inlineStyle with_elementStates]. unfold hiddenPage.
    apply writes_untouched.
    intros w Hw E1 E2. subst w. destruct Hor as [Hor|Hor]; congruence.
  - intros w _ E _. congruence.
Qed.

(** What entering does, field by field. *)
Lemma toggleFullscreen_enter (d : DOM) (e : node) (fs : string) (s : State) :
  dom_wf d = true ->
  exists sE,
    toggleFullscreen d (Some e) true fs s = (Returned, sE)
    /\ elementStates sE = Map_set (idOf d e) (savedState d e s) (elementStates s)
    /\ (forall p v, In (p, v) FULLSCREEN_STYLES -> inlineStyle sE e p = v)
    /\ (forall n, In n (suppressed d e) -> inlineStyle sE n display = "none")
    /\ (forall n q, n <> e -> ~ In n (suppressed d e) \/ q <> display ->
                    inlineStyle sE n q = inlineStyle s n q)
    /\ cleanupTimer sE = cleanupTimer s
    /\ timers sE = timers s /\ nextTimer sE = nextTimer s
    /\ console sE = console s
    /\ (if String.eqb fs "" then
          headStyles sE = headStyles s
          /\ fullscreenStyleElement sE = fullscreenStyleElement s
          /\ nextStyleElement sE = nextStyleElement s
        else
          headStyles sE
          = headStyles s ++ [(nextStyleElement s, processFullscreenStyle fs (idOf d e))]
          /\ fullscreenStyleElement sE = Some (nextStyleElement s)
          /\ nextStyleElement sE = S (nextStyleElement s)).
Proof.
  intros wf.
  assert (Hnot : ~ In e (suppressed d e)) by apply (hideTargets_not_self d wf).
  destruct (enteredPage_frame d e s) as (G1 & G2 & G3 & G4 & G5 & G6 & G7 & G8).
  rewrite (toggleFullscreen_enter_eq d e fs s wf).
  destruct (String.eqb fs "") eqn:Efs.
  - exists (enteredPage d e s). rewrite (styledPage_plain d e fs s Efs).
    split; [reflexivity|]. split; [exact G1|].
    split; [apply enteredPage_self|].
    split; [intros n; apply enteredPage_hidden; exact Hnot|].
    split; [intros n q; apply enteredPage_other|].
    split; [exact G3|]. split; [exact G6|]. split; [exact G7|].
    split; [exact G8|]. split; [exact G4|]. split; [exact G2|exact G5].
  - exists (injectedPage (processFullscreenStyle fs (idOf d e)) (enteredPage d e s)).
    rewrite (styledPage_styled d e fs s Efs).
    destruct (injectedPage_frame (processFullscreenStyle fs (idOf d e))
                (enteredPage d e s))
      as (I1 & I2 & I3 & I4 & I5 & I6 & I7 & I8 & I9).
    split; [reflexivity|]. split; [rewrite I1; exact G1|].
    split; [intros p v; rewrite I4; apply enteredPage_self|].
    split; [intros n; rewrite I4; apply enteredPage_hidden; exact Hnot|].
    split; [intros n q; rewrite I4; apply enteredPage_other|].
    split; [rewrite I3; exact G3|]. split; [rewrite I7; exact G6|].
    split; [rewrite I8; exact G7|]. split; [rewrite I9; exact G8|].
    split; [rewrite I5, G4, G5; reflexivity|].
    split; [rewrite I2, G5; reflexivity|rewrite I6, G5; reflexivity].
Qed.

(** ** Leaving *)

Lemma restoreElementState_writes (e : node) (st : ElementState) (s : State) :
  restoreElementState e st s
  = writes fst (fun _ => display) snd (hiddenElements st)
      (writes (fun _ => e) fst snd (originalStyles st)
         (writes (fun _ => e) (fun p => p) (fun _ => "") STYLES_TO_SAVE s)).
Proof. reflexivity. Qed.

Lemma restoreElementState_frame (e : node) (st : ElementState) (s : State) :
  elementStates (restoreElementState e st s) = elementStates s
  /\ fullscreenStyleElement (restoreElementState e st s) = fullscreenStyleElement s
  /\ cleanupTimer (restoreElementState e st s) = cleanupTimer s
  /\ headStyles (restoreElementState e st s) = headStyles s
  /\ nextStyleElement (restoreElementState e st s) = nextStyleElement s
  /\ timers (restoreElementState e st s) = timers s
  /\ nextTimer (restoreElementState e st s) = nextTimer s
  /\ console (restoreElementState e st s) = console s.
Proof.
  rewrite restoreElementState_writes.
  destruct (writes_frame fst (fun _ => display) snd (hiddenElements st)
              (writes (fun _ => e) fst snd (originalStyles st)
                 (writes (fun _ => e) (fun p => p) (fun _ => "") STYLES_TO_SAVE s)))
    as (A1 & A2 & A3 & A4 & A5 & A6 & A7 & A8).
  destruct (writes_frame (fun _ : StyleProp * string => e) fst snd (originalStyles st)
              (writes (fun _ => e) (fun p => p) (fun _ => "") STYLES_TO_SAVE s))
    as (B1 & B2 & B3 & B4 & B5 & B6 & B7 & B8).
  destruct (writes_frame (fun _ : StyleProp => e) (fun p => p) (fun _ => "")
              STYLES_TO_SAVE s)
    as (C1 & C2 & C3 & C4 & C5 & C6 & C7 & C8).
  repeat split; congruence.
Qed.

(** Restoring a state saved by [saveElementState] for the same element:
    the element gets its saved values back, every hidden element its
    recorded display, and nothing else is written. *)
Lemma restoreElementState_spec (e : node) (v : StyleProp -> string)
    (od : node -> string) (T : list node) (s : State) :
  ~ In e T ->
  let st := mkElementState (map (fun p => (p, v p)) STYLES_TO_SAVE)
                           (map (fun n => (n, od n)) T) in
  (forall p, inlineStyle (restoreElementState e st s) e p = v p)
  /\ (forall n, In n T -> inlineStyle (restoreElementState e st s) n display = od n)
  /\ (forall n q, n <> e -> ~ In n T \/ q <> display ->
                  inlineStyle (restoreElementState e st s) n q = inlineStyle s n q).
Proof.
  intros Hnot st. rewrite restoreElementState_writes. simpl hiddenElements.
  simpl originalStyles. split; [|split].
  - intros p. rewrite writes_untouched.
    + apply (writes_last (fun _ : StyleProp * string => e) fst snd
               (map (fun p => (p, v p)) STYLES_TO_SAVE) _ (p, v p)).
      * apply in_map_iff. exists p. split; [reflexivity|apply STYLES_TO_SAVE_all].
      * intros w1 w2 H1 H2 _ E.
        apply in_map_iff in H1 as [p1 [<- _]]. apply in_map_iff in H2 as [p2 [<- _]].
        simpl in E. congruence.
    + intros w Hw E _. apply in_map_iff in Hw as [n [<- Hn]]. simpl in E. congruence.
  - intros n Hn.
    apply (writes_last fst (fun _ => display) snd (map (fun n => (n, od n)) T) _ (n, od n)).
    + apply in_map_iff. exists n. auto.
    + intros w1 w2 H1 H2 E _.
      apply in_map_iff in H1 as [n1 [<- _]]. apply in_map_iff in H2 as [n2 [<- _]].
      simpl in E. congruence.
  - intros n q Hne Hor. rewrite !writes_untouched; [reflexivity|..].
    + intros w _ E _. congruence.
    + intros w _ E _. congruence.
    + intros w Hw E1 E2. apply in_map_iff in Hw as [n' [<- Hn']]. simpl in E1.
      destruct Hor as [Hor|Hor]; congruence.
Qed.

Lemma removeAddedStyle_frame (h : option nat) (s : State) :
  elementStates (removeAddedStyle h s) = elementStates s
  /\ fullscreenStyleElement (removeAddedStyle h s) = fullscreenStyleElement s
  /\ cleanupTimer (removeAddedStyle h s) = cleanupTimer s
  /\ inlineStyle (removeAddedStyle h s) = inlineStyle s
  /\ nextStyleElement (removeAddedStyle h s) = nextStyleElement s
  /\ timers (removeAddedStyle h s) = timers s
  /\ nextTimer (removeAddedStyle h s) = nextTimer s
  /\ console (removeAddedStyle h s) = console s.
Proof.
  unfold removeAddedStyle. destruct h as [h|]; [|repeat split].
  destruct (hasParentNode h s); repeat split.
Qed.

Lemma removeAddedStyle_head (h : option nat) (s : State) :
  headStyles (removeAddedStyle h s)
  = match h with
    | Some h => filter (fun e => negb (fst e =? h)) (headStyles s)
    | None => headStyles s
    end.
Proof.
  unfold removeAddedStyle. destruct h as [h|]; [|reflexivity].
  unfold hasParentNode.
  destruct (existsb (fun e => fst e =? h) (headStyles s)) eqn:E; [reflexivity|].
  simpl. symmetry. apply forallb_filter_id. apply forallb_forall. intros x Hx.
  destruct (fst x =? h) eqn:Ex; [|reflexivity].
  assert (existsb (fun e => fst e =? h) (headStyles s) = true); [|congruence].
  apply existsb_exists. exists x. auto.
Qed.

(** What leaving does when a state is saved under the identifier. *)
Lemma toggleFullscreen_exit (d : DOM) (e : node) (fs : string) (st : ElementState)
    (s : State) :
  Map_get (idOf d e) (elementStates s) = Some st ->
  exists sX,
    toggleFullscreen d (Some e) false fs s = (Returned, sX)
    /\ elementStates sX = Map_delete (idOf d e) (elementStates s)
    /\ inlineStyle sX = inlineStyle (restoreElementState e st s)
    /\ fullscreenStyleElement sX = None
    /\ headStyles sX = headStyles (removeAddedStyle (fullscreenStyleElement s) s)
    /\ cleanupTimer sX = cleanupTimer s
    /\ nextStyleElement sX = nextStyleElement s
    /\ timers sX = timers s /\ nextTimer sX = nextTimer s
    /\ console sX = console s.
Proof.
  intros Hget. unfold toggleFullscreen, toggleFullscreen_try. rewrite Hget.
  destruct (restoreElementState_frame e st s) as (A1 & A2 & A3 & A4 & A5 & A6 & A7 & A8).
  set (s1 := restoreElementState e st s) in *. clearbody s1.
  cbv beta iota zeta.
  change (fullscreenStyleElement
            (with_elementStates (Map_delete (idOf d e) (elementStates s1)) s1))
    with (fullscreenStyleElement s1).
  rewrite A2. destruct (fullscreenStyleElement s) as [h|] eqn:Eh.
  - exists (with_fullscreenStyleElement None
              (removeAddedStyle (Some h)
                 (with_elementStates (Map_delete (idOf d e) (elementStates s1)) s1))).
    split; [reflexivity|].
    destruct (removeAddedStyle_frame (Some h)
                (with_elementStates (Map_delete (idOf d e) (elementStates s1)) s1))
      as (B1 & B2 & B3 & B4 & B5 & B6 & B7 & B8).
    pose proof (removeAddedStyle_head (Some h)
                  (with_elementStates (Map_delete (idOf d e) (elementStates s1)) s1))
      as B9.
    rewrite (removeAddedStyle_head (Some h) s).
    set (s3 := removeAddedStyle (Some h)
                 (with_elementStates (Map_delete (idOf d e) (elementStates s1)) s1)) in *.
    clearbody s3. simpl in *.
    repeat split; congruence.
  - eexists. split; [reflexivity|]. cbn. repeat split; congruence.
Qed.

(** ** A page to run the manager on

    [html(0)] holds [head(1)] and [body(2)]; the body holds [p(3)] and
    [nav(7)]; [p] holds the blocks [a(4)], [b(5)] and [c(6)]; [nav] holds a
    second element with the id [a] (8).  Elements 9 to 11 are detached
    from the document; 10 and 11 have no id. *)
Definition demo : DOM :=
  mkDOM
    [ mkElement "" None [1; 2] true "block";
      mkElement "" (Some 0) [] true "none";
      mkElement "" (Some 0) [3; 7] true "block";
      mkElement "p" (Some 2) [4; 5; 6] true "block";
      mkElement "a" (Some 3) [] true "block";
      mkElement "b" (Some 3) [] true "flex";
      mkElement "c" (Some 3) [] true "inline";
      mkElement "nav" (Some 2) [8] true "block";
      mkElement "a" (Some 7) [] true "block";
      mkElement "x" None [10] false "block";
      mkElement "" (Some 9) [] false "block";
      mkElement "" None [] false "block" ]
    2.

(** A fresh manager on the page; [b] has an inline [display: grid] and [a]
    an inline width. *)
Definition demoState : State :=
  newManager (fun n p =>
                match n, p with
                | 5, display => "grid"
                | 4, width => "50%"
                | _, _ => ""
                end).

Example demo_wf : dom_wf demo = true.
Proof. reflexivity. Qed.

Example demo_suppressed : suppressed demo 4 = [5; 6; 7].
Proof. reflexivity. Qed.

Example demo_enter_hidden :
  Map_get "a" (elementStates (snd (toggleFullscreen demo (Some 4) true "" demoState)))
  = Some (mkElementState
            [ (position, ""); (top, ""); (left, ""); (width, "50%"); (height, "");
              (zIndex, ""); (background, ""); (overflow, ""); (margin, "");
              (padding, ""); (marginBottom, ""); (boxSizing, ""); (maxHeight, "");
              (display, "") ]
            [ (5, "grid"); (6, "inline"); (7, "block") ]).
Proof. reflexivity. Qed.

(** ** Enter, then exit *)

(** C1.  Entering a container and leaving it at once gives every property
    of [STYLES_TO_SAVE] of the container its value from before, and every
    sibling hidden on the way in (every element recorded in the session)
    the display mode it had before; both calls return. *)
Theorem enter_exit_restores (d : DOM) (C : node) (s : State) :
  dom_wf d = true ->
  let r1 := toggleFullscreen d (Some C) true "" s in
  let r2 := toggleFullscreen d (Some C) false "" (snd r1) in
  fst r1 = Returned /\ fst r2 = Returned
  /\ (forall p, In p STYLES_TO_SAVE -> inlineStyle (snd r2) C p = inlineStyle s C p)
  /\ (exists st,
         Map_get (idOf d C) (elementStates (snd r1)) = Some st
         /\ forall sibling originalDisplay,
             In (sibling, originalDisplay) (hiddenElements st) ->
             originalDisplay = computedDisplay d s sibling
             /\ inlineStyle (snd r1) sibling display = "none"
             /\ computedDisplay d (snd r2) sibling = computedDisplay d s sibling)
  /\ (forall n, computedDisplay d (snd r2) n = computedDisplay d s n).
Proof.
  intros wf r1 r2.
  destruct (toggleFullscreen_enter d C "" s wf)
    as (sE & HE & Hst & HEc & HEh & HEo & _).
  set (st := mkElementState
               (map (fun p => (p, inlineStyle s C p)) STYLES_TO_SAVE)
               (map (fun n => (n, computedDisplay d s n)) (suppressed d C))) in *.
  assert (Hget : Map_get (idOf d C) (elementStates sE) = Some st).
  { rewrite Hst. apply Map_get_set_same. }
  destruct (toggleFullscreen_exit d C "" sE Hget) as (sX & HX & _ & HXs & _).
  assert (Hnot : ~ In C (suppressed d C)) by apply (hideTargets_not_self d wf).
  destruct (@restoreElementState_spec C (fun p => inlineStyle s C p)
              (fun n => computedDisplay d s n) (suppressed d C) sE Hnot)
    as (R1 & R2 & R3).
  fold st in R1, R2, R3.
  assert (Hr1 : r1 = (Returned, sE)) by exact HE.
  assert (Hr2 : r2 = (Returned, sX)).
  { unfold r2. rewrite Hr1. exact HX. }
  rewrite Hr1, Hr2. simpl fst. simpl snd. rewrite HXs.
  split; [reflexivity|]. split; [reflexivity|]. split; [|split].
  - intros p _. apply R1.
  - exists st. split; [exact Hget|]. intros sibling od Hin.
    simpl in Hin. apply in_map_iff in Hin as [n [E Hn]]. injection E as -> <-.
    split; [reflexivity|]. split; [apply HEh; exact Hn|].
    unfold computedDisplay at 1. rewrite HXs.
    apply (computedDisplay_restored d s (restoreElementState C st sE)).
    apply R2. exact Hn.
  - intros n. unfold computedDisplay at 1. rewrite HXs.
    fold (computedDisplay d (restoreElementState C st sE) n).
    destruct (Nat.eq_dec n C) as [->|Hne].
    + apply computedDisplay_ext. apply R1.
    + destruct (in_dec Nat.eq_dec n (suppressed d C)) as [Hin|Hin].
      * apply computedDisplay_restored. apply R2. exact Hin.
      * apply computedDisplay_ext. rewrite R3 by auto. apply HEo; auto.
Qed.

Lemma enter_exit_restores_witness :
  let r1 := toggleFullscreen demo (Some 4) true "" demoState in
  let r2 := toggleFullscreen demo (Some 4) false "" (snd r1) in
  fst r1 = Returned /\ fst r2 = Returned
  /\ (forall p, In p STYLES_TO_SAVE ->
                inlineStyle (snd r2) 4 p = inlineStyle demoState 4 p)
  /\ (exists st,
         Map_get (idOf demo 4) (elementStates (snd r1)) = Some st
         /\ forall sibling originalDisplay,
             In (sibling, originalDisplay) (hiddenElements st) ->
             originalDisplay = computedDisplay demo demoState sibling
             /\ inlineStyle (snd r1) sibling display = "none"
             /\ computedDisplay demo (snd r2) sibling
                = computedDisplay demo demoState sibling)
  /\ (forall n, computedDisplay demo (snd r2) n = computedDisplay demo demoState n).
Proof. apply (enter_exit_restores demo 4 demoState). reflexivity. Defined.

(** ** The placeholder *)

Fixpoint hasChar (c : ascii) (s : string) : bool :=
  match s with
  | EmptyString => false
  | String a r => Ascii.eqb a c || hasChar c r
  end.

Lemma hasChar_append (c : ascii) (a b : string) :
  hasChar c (a ++ b)%string = hasChar c a || hasChar c b.
Proof.
  induction a as [|x a IH]; simpl; [reflexivity|].
  rewrite IH. apply orb_assoc.
Qed.

Lemma prefix_cons (a b : ascii) (p s : string) :
  String.prefix (String a p) (String b s)
  = if ascii_dec a b then String.prefix p s else false.
Proof. reflexivity. Qed.

Lemma prefix_cons_true (a b : ascii) (p s : string) :
  String.prefix (String a p) (String b s) = true <-> a = b /\ String.prefix p s = true.
Proof.
  rewrite prefix_cons. destruct (ascii_dec a b); split; intros H.
  - auto.
  - apply H.
  - discriminate.
  - destruct H. contradiction.
Qed.

Lemma prefix_append (p s : string) : String.prefix p (p ++ s)%string = true.
Proof.
  induction p as [|a p IH]; simpl; [destruct s; reflexivity|].
  destruct (ascii_dec a a); [exact IH|contradiction].
Qed.

Lemma prefix_split (p s : string) :
  String.prefix p s = true -> s = (p ++ dropString (String.length p) s)%string.
Proof.
  revert s. induction p as [|a p IH]; intros s H; [destruct s; reflexivity|].
  destruct s as [|b s]; [discriminate|].
  apply prefix_cons_true in H as [-> H]. simpl. f_equal. apply IH. exact H.
Qed.

Lemma dropString_length (n : nat) (s : string) :
  String.length (dropString n s) = String.length s - n.
Proof.
  revert s. induction n as [|n IH]; intros s; simpl.
  - destruct s; simpl; lia.
  - destruct s as [|a s]; simpl; [reflexivity|apply IH].
Qed.

(** A template without a dollar sign stands for itself. *)
Lemma getSubstitution_plain (matched before after template : string) :
  hasChar "$" template = false ->
  getSubstitution matched before after template = template.
Proof.
  induction template as [|c t IH]; simpl; [reflexivity|].
  intros H. apply orb_false_elim in H as [Hc Ht]. rewrite Hc.
  f_equal. apply IH. exact Ht.
Qed.

(** Where the first character of the pattern does not occur, the pattern
    does not start. *)
Lemma occurrences_skip (h : ascii) (pat x y : string) :
  hasChar h x = false ->
  occurrences (String h pat) (x ++ y)%string = occurrences (String h pat) y.
Proof.
  induction x as [|a x IH]; intros H; [reflexivity|].
  simpl in H. apply orb_false_elim in H as [Ha Hx].
  change (String a x ++ y)%string with (String a (x ++ y)%string).
  cbn [occurrences]. rewrite prefix_cons.
  destruct (ascii_dec h a) as [->|_].
  - rewrite Ascii.eqb_refl in Ha. discriminate.
  - simpl. apply IH. exact Hx.
Qed.

Lemma occurrences_self (h : ascii) (pat y : string) :
  hasChar h pat = false ->
  occurrences (String h pat) (String h pat ++ y)%string
  = S (occurrences (String h pat) y).
Proof.
  intros H. change (String h pat ++ y)%string with (String h (pat ++ y)%string).
  cbn [occurrences]. rewrite occurrences_skip by exact H.
  rewrite prefix_cons. destruct (ascii_dec h h); [|contradiction].
  rewrite prefix_append. reflexivity.
Qed.

Section Substitution.
Variable blockId : string.
Hypothesis no_dollar : hasChar "$" blockId = false.
Hypothesis no_hash : hasChar "#" blockId = false.

Let R := scopedSelector blockId.

Lemma selector_plain : hasChar "$" R = false.
Proof.
  unfold R, scopedSelector. simpl. rewrite hasChar_append, no_dollar. reflexivity.
Qed.

Lemma selector_tail_no_hash : hasChar "#" (blockId ++ " ")%string = false.
Proof. rewrite hasChar_append, no_hash. reflexivity. Qed.

Lemma replaceAll_fuel_match (f : nat) (before s : string) :
  String.prefix placeholder s = true ->
  replaceAll_fuel (S f) R before s
  = (R ++ replaceAll_fuel f R (before ++ placeholder)
            (dropString (String.length placeholder) s))%string.
Proof.
  intros H. cbn [replaceAll_fuel]. destruct s as [|c r]; [discriminate|].
  rewrite H. rewrite getSubstitution_plain by apply selector_plain. reflexivity.
Qed.

Lemma replaceAll_fuel_step (f : nat) (before : string) (c : ascii) (r : string) :
  String.prefix placeholder (String c r) = false ->
  replaceAll_fuel (S f) R before (String c r)
  = String c (replaceAll_fuel f R (before ++ String c "")%string r).
Proof. intros H. cbn [replaceAll_fuel]. rewrite H. reflexivity. Qed.

(** A text without [#] that starts the output starts the input. *)
Lemma replaceAll_prefix (f : nat) (q before s : string) :
  hasChar "#" q = false ->
  String.length s <= f ->
  String.prefix q (replaceAll_fuel f R before s) = true ->
  String.prefix q s = true.
Proof.
  revert q before s. induction f as [|f IH]; intros q before s Hq Hlen H.
  - exact H.
  - destruct s as [|c r]; [exact H|].
    destruct q as [|a q]; [reflexivity|].
    simpl in Hq. apply orb_false_elim in Hq as [Ha Hq].
    destruct (String.prefix placeholder (String c r)) eqn:E.
    + rewrite replaceAll_fuel_match in H by exact E.
      unfold R, scopedSelector in H. simpl in H.
      destruct (ascii_dec a "#") as [->|_]; [|discriminate].
      rewrite Ascii.eqb_refl in Ha. discriminate.
    + rewrite replaceAll_fuel_step in H by exact E.
      apply prefix_cons_true in H as [-> H]. apply prefix_cons_true.
      split; [reflexivity|]. simpl in Hlen.
      apply (IH q (before ++ String c "")%string r Hq); [lia|exact H].
Qed.

(** No placeholder is left. *)
Lemma replaceAll_no_placeholder (f : nat) (before s : string) :
  String.length s <= f ->
  occurrences placeholder (replaceAll_fuel f R before s) = 0.
Proof.
  revert before s. induction f as [|f IH]; intros before s Hlen.
  - destruct s; [reflexivity|simpl in Hlen; lia].
  - destruct s as [|c r]; [reflexivity|].
    destruct (String.prefix placeholder (String c r)) eqn:E.
    + rewrite replaceAll_fuel_match by exact E.
      change placeholder with (String "$" "{blockId}") at 1.
      rewrite occurrences_skip by apply selector_plain.
      apply IH. rewrite dropString_length. simpl in *. lia.
    + rewrite replaceAll_fuel_step by exact E.
      cbn [occurrences]. rewrite IH by (simpl in Hlen; lia).
      destruct (String.prefix placeholder
                  (String c (replaceAll_fuel f R (before ++ String c "")%string r)))
        eqn:E'; [|reflexivity].
      exfalso.
      change placeholder with (String "$" "{blockId}") in E, E'.
      apply prefix_cons_true in E' as [<- E'].
      apply replaceAll_prefix in E'; [|reflexivity|simpl in Hlen; lia].
      assert (String.prefix (String "$" "{blockId}") (String "$" r) = true)
        by (apply prefix_cons_true; auto).
      congruence.
Qed.

(** Where the selector does not occur in the input, it occurs in the
    output once per placeholder. *)
Lemma replaceAll_selector_count (f : nat) (before s : string) :
  String.length s <= f ->
  occurrences R s = 0 ->
  occurrences R (replaceAll_fuel f R before s) = occurrences placeholder s.
Proof.
  revert before s. induction f as [|f IH]; intros before s Hlen Hocc.
  - destruct s; [reflexivity|simpl in Hlen; lia].
  - destruct s as [|c r]; [reflexivity|].
    pose proof Hocc as Hocc0.
    cbn [occurrences] in Hocc. apply Nat.eq_add_0 in Hocc as [Hhere Hocc].
    destruct (String.prefix placeholder (String c r)) eqn:E.
    + rewrite replaceAll_fuel_match by exact E.
      pose proof (prefix_split _ _ E) as Hs.
      assert (Hlt : String.length
                      (dropString (String.length placeholder) (String c r)) <= f).
      { rewrite dropString_length. simpl in *. lia. }
      remember (dropString (String.length placeholder) (String c r)) as t eqn:Et.
      clear Et.
      assert (Ht : occurrences R t = 0).
      { rewrite Hs in Hocc0. unfold R, scopedSelector in Hocc0 |- *.
        change ("#" ++ blockId ++ " ")%string
          with (String "#" (blockId ++ " ")%string) in Hocc0 |- *.
        rewrite occurrences_skip in Hocc0 by reflexivity. exact Hocc0. }
      rewrite Hs.
      pose proof (occurrences_self "$" "{blockId}" t eq_refl) as HP.
      change (String "$" "{blockId}") with placeholder in HP. rewrite HP.
      pose proof (occurrences_self "#" (blockId ++ " ")
                    (replaceAll_fuel f R (before ++ placeholder) t)
                    selector_tail_no_hash) as HR.
      change (String "#" (blockId ++ " ")) with R in HR. rewrite HR.
      rewrite (IH (before ++ placeholder)%string t Hlt Ht). reflexivity.
    + rewrite replaceAll_fuel_step by exact E.
      cbn [occurrences]. rewrite E.
      rewrite IH by (simpl in Hlen; lia || exact Hocc).
      destruct (String.prefix R
                  (String c (replaceAll_fuel f R (before ++ String c "")%string r)))
        eqn:E'; [|reflexivity].
      exfalso. unfold R, scopedSelector in E', Hhere.
      change ("#" ++ blockId ++ " ")%string
        with (String "#" (blockId ++ " ")%string) in E', Hhere.
      apply prefix_cons_true in E' as [<- E'].
      apply replaceAll_prefix in E';
        [|apply selector_tail_no_hash|simpl in Hlen; lia].
      rewrite prefix_cons in Hhere.
      destruct (ascii_dec "#" "#"); [|contradiction].
      rewrite E' in Hhere. discriminate.
Qed.
End Substitution.

Example processFullscreenStyle_demo :
  processFullscreenStyle "${blockId} { color: red; }" "a" = "#a  { color: red; }".
Proof. reflexivity. Qed.

Example processFullscreenStyle_dollar_ampersand :
  processFullscreenStyle "${blockId}.t" "$&" = "#${blockId} .t".
Proof. reflexivity. Qed.

Example processFullscreenStyle_hash_in_id :
  occurrences (scopedSelector "a #a")
              (processFullscreenStyle "${blockId}${blockId}" "a #a") = 3.
Proof. reflexivity. Qed.

(** C9, as the code has it.  For an identifier without [$] and without
    [#], and an override text in which the scoped selector does not occur
    already, the processed text holds the scoped selector once per
    placeholder of the override text and holds no placeholder. *)
Theorem processFullscreenStyle_counts (style blockId : string) :
  hasChar "$" blockId = false ->
  hasChar "#" blockId = false ->
  occurrences (scopedSelector blockId) style = 0 ->
  occurrences (scopedSelector blockId) (processFullscreenStyle style blockId)
  = occurrences placeholder style
  /\ occurrences placeholder (processFullscreenStyle style blockId) = 0.
Proof.
  intros Hd Hh Hocc. unfold processFullscreenStyle, replaceAll. split.
  - apply replaceAll_selector_count; auto.
  - apply replaceAll_no_placeholder; auto.
Qed.

Lemma processFullscreenStyle_counts_witness :
  occurrences (scopedSelector "fullscreen-block-container-V1StGXR8")
    (processFullscreenStyle
       "${blockId} .a { color: #f0f0f0; } ${blockId} .b { margin: 0; }"
       "fullscreen-block-container-V1StGXR8")
  = occurrences placeholder
      "${blockId} .a { color: #f0f0f0; } ${blockId} .b { margin: 0; }"
  /\ occurrences placeholder
       (processFullscreenStyle
          "${blockId} .a { color: #f0f0f0; } ${blockId} .b { margin: 0; }"
          "fullscreen-block-container-V1StGXR8") = 0.
Proof.
  apply (processFullscreenStyle_counts
           "${blockId} .a { color: #f0f0f0; } ${blockId} .b { margin: 0; }"
           "fullscreen-block-container-V1StGXR8"); reflexivity.
Defined.

(** C9 as stated fails: with the text [#x ${blockId}] and the identifier
    [x], one placeholder gives two occurrences of the selector. *)
Lemma processFullscreenStyle_counterexample :
  ~ (occurrences (scopedSelector "x") (processFullscreenStyle "#x ${blockId}" "x")
     = occurrences placeholder "#x ${blockId}"
     /\ occurrences placeholder (processFullscreenStyle "#x ${blockId}" "x") = 0).
Proof. intros [H _]. vm_compute in H. discriminate H. Qed.

(** ** The store under the calls *)

(** The [catch] of [toggleFullscreen] leaves nothing to the caller. *)
Lemma toggleFullscreen_returns (d : DOM) (element : option node)
    (isFullscreen : bool) (fullscreenStyle : string) (s : State) :
  fst (toggleFullscreen d element isFullscreen fullscreenStyle s) = Returned.
Proof.
  unfold toggleFullscreen.
  destruct (toggleFullscreen_try d element isFullscreen fullscreenStyle s)
    as [[|err] s']; reflexivity.
Qed.

Lemma saveElementState_store (d : DOM) (e : node) (s : State) :
  elementStates (snd (saveElementState d e s)) = elementStates s.
Proof.
  unfold saveElementState. rewrite hideSiblings_hideList.
  pose proof (hideList_state d
                (hideTargets d (S (List.length (elements d))) (Some e)) [] s) as H.
  destruct (hideList d (hideTargets d (S (List.length (elements d))) (Some e)) ([], s))
    as [hidden s'].
  cbn [fst snd] in *. subst s'. apply writes_frame.
Qed.

(** Entering, without an assumption on the tree. *)
Definition rawEnteredPage (d : DOM) (e : node) (s : State) : State :=
  writes (fun _ => e) fst snd FULLSCREEN_STYLES
    (with_elementStates
       (Map_set (idOf d e) (fst (saveElementState d e s))
                (elementStates (snd (saveElementState d e s))))
       (snd (saveElementState d e s))).

Lemma toggleFullscreen_enter_raw (d : DOM) (e : node) (fs : string) (s : State) :
  toggleFullscreen d (Some e) true fs s
  = (Returned,
     if String.eqb fs "" then rawEnteredPage d e s
     else injectedPage (processFullscreenStyle fs (idOf d e)) (rawEnteredPage d e s)).
Proof.
  unfold toggleFullscreen, toggleFullscreen_try, rawEnteredPage.
  destruct (saveElementState d e s) as [st s1].
  destruct (String.eqb fs ""); reflexivity.
Qed.

Lemma rawEnteredPage_store (d : DOM) (e : node) (s : State) :
  elementStates (rawEnteredPage d e s)
  = Map_set (idOf d e) (fst (saveElementState d e s)) (elementStates s).
Proof.
  unfold rawEnteredPage.
  destruct (writes_frame (fun _ : StyleProp * string => e) fst snd FULLSCREEN_STYLES
              (with_elementStates
                 (Map_set (idOf d e) (fst (saveElementState d e s))
                    (elementStates (snd (saveElementState d e s))))
                 (snd (saveElementState d e s)))) as (G1 & _).
  rewrite G1. cbn [elementStates with_elementStates].
  rewrite saveElementState_store. reflexivity.
Qed.

(** Entering writes the store at the identifier of the element and
    nowhere else; no well-formedness of the tree is needed for that. *)
Lemma toggleFullscreen_enter_store (d : DOM) (e : node) (fs : string) (s : State) :
  elementStates (snd (toggleFullscreen d (Some e) true fs s))
  = Map_set (idOf d e) (fst (saveElementState d e s)) (elementStates s).
Proof.
  rewrite toggleFullscreen_enter_raw. cbn [snd].
  destruct (String.eqb fs "").
  - apply rawEnteredPage_store.
  - destruct (injectedPage_frame (processFullscreenStyle fs (idOf d e))
                (rawEnteredPage d e s)) as (I1 & _).
    rewrite I1. apply rawEnteredPage_store.
Qed.

(** Leaving deletes the identifier of the element from the store. *)
Lemma toggleFullscreen_exit_store (d : DOM) (e : node) (fs : string) (s : State) :
  elementStates (snd (toggleFullscreen d (Some e) false fs s))
  = Map_delete (idOf d e) (elementStates s).
Proof.
  destruct (Map_get (idOf d e) (elementStates s)) as [st|] eqn:E.
  - destruct (toggleFullscreen_exit d e fs s E) as (sX & HX & Hst & _).
    rewrite HX. exact Hst.
  - unfold toggleFullscreen, toggleFullscreen_try. rewrite E. simpl.
    clear - E. induction (elementStates s) as [|[k v] r IH]; [reflexivity|].
    simpl in *. destruct (String.eqb k (idOf d e)); [discriminate|].
    simpl. f_equal. apply IH. exact E.
Qed.

Lemma exitFullscreen_returns (d : DOM) (e : node) (s : State) :
  fst (exitFullscreen d e s) = Returned.
Proof.
  unfold exitFullscreen. destruct (isElementFullscreen d e s); [|reflexivity].
  apply toggleFullscreen_returns.
Qed.

Lemma Map_delete_absent (k : string) m :
  Map_get k m = None -> Map_delete k m = m.
Proof.
  induction m as [|[k' v] r IH]; [reflexivity|].
  simpl. destruct (String.eqb k' k); [discriminate|].
  simpl. intros H. f_equal. apply IH. exact H.
Qed.

Lemma exitFullscreen_store (d : DOM) (e : node) (s : State) :
  elementStates (snd (exitFullscreen d e s)) = Map_delete (idOf d e) (elementStates s).
Proof.
  unfold exitFullscreen, isElementFullscreen. rewrite Map_has_get.
  destruct (Map_get (idOf d e) (elementStates s)) eqn:E.
  - apply toggleFullscreen_exit_store.
  - simpl. symmetry. apply Map_delete_absent. exact E.
Qed.

(** ** Leaving twice, leaving without a session *)

(** C7.  [exitFullscreen] twice in a row leaves the state [exitFullscreen]
    leaves once: the second call returns without writing anything. *)
Theorem exitFullscreen_idempotent (d : DOM) (C : node) (s : State) :
  exitFullscreen d C (snd (exitFullscreen d C s))
  = (Returned, snd (exitFullscreen d C s)).
Proof.
  unfold exitFullscreen at 1. unfold isElementFullscreen.
  rewrite exitFullscreen_store, Map_has_delete_same. reflexivity.
Qed.

(** C8.  For a container under whose identifier no session is stored,
    [isElementFullscreen] is false and [exitFullscreen] returns with the
    state as it was (store, inline styles, document and console). *)
Theorem never_entered_noop (d : DOM) (C : node) (s : State) :
  Map_get (idOf d C) (elementStates s) = None ->
  isElementFullscreen d C s = false /\ exitFullscreen d C s = (Returned, s).
Proof.
  intros H. unfold exitFullscreen, isElementFullscreen.
  rewrite Map_has_get, H. split; reflexivity.
Qed.

Lemma never_entered_noop_witness :
  isElementFullscreen demo 5 (snd (toggleFullscreen demo (Some 4) true "" demoState))
  = false
  /\ exitFullscreen demo 5 (snd (toggleFullscreen demo (Some 4) true "" demoState))
     = (Returned, snd (toggleFullscreen demo (Some 4) true "" demoState)).
Proof.
  apply (never_entered_noop demo 5
           (snd (toggleFullscreen demo (Some 4) true "" demoState))).
  reflexivity.
Defined.

(** ** Entering twice *)

Lemma NoDup_count_one (l : list string) (x : string) :
  NoDup l -> In x l -> count_occ string_dec l x = 1.
Proof.
  intros Hnd Hin. apply (proj1 (NoDup_count_occ string_dec l)) with (x := x) in Hnd.
  apply (proj1 (count_occ_In string_dec l x)) in Hin. lia.
Qed.

(** C4.  After two calls [toggleFullscreen(C, true)] in a row the store
    holds the identifier of [C] once, with the keys it had after the first
    call; the session stored lists no hidden sibling twice; the inline
    styles of the page are the ones the first call left (the overrides are
    not applied a second time over other values), and no style block has
    been added. *)
Theorem reenter_one_session (d : DOM) (C : node) (s : State) :
  dom_wf d = true ->
  NoDup (Map_keys (elementStates s)) ->
  let r1 := toggleFullscreen d (Some C) true "" s in
  let r2 := toggleFullscreen d (Some C) true "" (snd r1) in
  fst r2 = Returned
  /\ count_occ string_dec (Map_keys (elementStates (snd r2))) (idOf d C) = 1
  /\ Map_keys (elementStates (snd r2)) = Map_keys (elementStates (snd r1))
  /\ (exists st, Map_get (idOf d C) (elementStates (snd r2)) = Some st
                 /\ NoDup (map fst (hiddenElements st)))
  /\ (forall n q, inlineStyle (snd r2) n q = inlineStyle (snd r1) n q)
  /\ headStyles (snd r2) = headStyles s.
Proof.
  intros wf Hnd r1 r2.
  destruct (toggleFullscreen_enter d C "" s wf)
    as (s1 & E1 & St1 & Sc1 & Sh1 & So1 & _ & _ & _ & _ & Hd1 & _).
  destruct (toggleFullscreen_enter d C "" s1 wf)
    as (s2 & E2 & St2 & Sc2 & Sh2 & So2 & _ & _ & _ & _ & Hd2 & _).
  assert (Hr1 : r1 = (Returned, s1)) by exact E1.
  assert (Hr2 : r2 = (Returned, s2)) by (unfold r2; rewrite Hr1; exact E2).
  rewrite Hr2, Hr1. cbn [fst snd]. simpl in Hd1, Hd2.
  assert (Hhas : Map_has (idOf d C) (elementStates s1) = true).
  { rewrite Map_has_get, St1, Map_get_set_same. reflexivity. }
  assert (Hkeys : Map_keys (elementStates s2) = Map_keys (elementStates s1)).
  { rewrite St2. apply Map_keys_set_present. exact Hhas. }
  split; [reflexivity|]. split; [|split; [exact Hkeys|split; [|split]]].
  - rewrite Hkeys. apply NoDup_count_one.
    + rewrite St1. apply Map_set_NoDup. exact Hnd.
    + apply Map_has_In. exact Hhas.
  - exists (savedState d C s1). split.
    + rewrite St2. apply Map_get_set_same.
    + unfold savedState. cbn [hiddenElements]. rewrite map_map. cbn [fst].
      rewrite map_id. apply (hideTargets_NoDup d wf).
  - intros n q. destruct (Nat.eq_dec n C) as [->|Hne].
    + destruct (in_map_iff fst FULLSCREEN_STYLES q) as [_ Hq].
      destruct (proj1 (in_map_iff fst FULLSCREEN_STYLES q) (STYLES_TO_SAVE_all q))
        as [[q' v] [Eq Hin]].
      simpl in Eq. subst q'. rewrite (Sc1 q v Hin), (Sc2 q v Hin). reflexivity.
    + destruct (in_dec Nat.eq_dec n (suppressed d C)) as [Hin|Hin].
      * destruct (StyleProp_eq_dec q display) as [->|Hq].
        -- rewrite (Sh1 n Hin), (Sh2 n Hin). reflexivity.
        -- apply So2; auto.
      * apply So2; auto.
  - congruence.
Qed.

Lemma reenter_one_session_witness :
  let r1 := toggleFullscreen demo (Some 4) true "" demoState in
  let r2 := toggleFullscreen demo (Some 4) true "" (snd r1) in
  fst r2 = Returned
  /\ count_occ string_dec (Map_keys (elementStates (snd r2))) (idOf demo 4) = 1
  /\ Map_keys (elementStates (snd r2)) = Map_keys (elementStates (snd r1))
  /\ (exists st, Map_get (idOf demo 4) (elementStates (snd r2)) = Some st
                 /\ NoDup (map fst (hiddenElements st)))
  /\ (forall n q, inlineStyle (snd r2) n q = inlineStyle (snd r1) n q)
  /\ headStyles (snd r2) = headStyles demoState.
Proof.
  apply (reenter_one_session demo 4 demoState); [reflexivity|constructor].
Defined.

(** ** Two elements, one identifier *)

(** C10.  The store is keyed by [element.id] alone.  When two different
    elements have the same [id] (the empty one included) and the first
    enters, [isElementFullscreen] holds of the second, and
    [toggleFullscreen(e2, false)] takes the state saved for the first:
    it restores that state onto [e2] and deletes the entry, after which
    neither element is fullscreen. *)
Theorem sessions_keyed_by_id (d : DOM) (e1 e2 : node) (fs : string) (s : State) :
  dom_wf d = true ->
  e1 <> e2 ->
  idOf d e1 = idOf d e2 ->
  let s1 := snd (toggleFullscreen d (Some e1) true fs s) in
  let r2 := toggleFullscreen d (Some e2) false "" s1 in
  isElementFullscreen d e2 s1 = true
  /\ Map_get (idOf d e2) (elementStates s1) = Some (savedState d e1 s)
  /\ fst r2 = Returned
  /\ inlineStyle (snd r2) = inlineStyle (restoreElementState e2 (savedState d e1 s) s1)
  /\ elementStates (snd r2) = Map_delete (idOf d e1) (elementStates s1)
  /\ isElementFullscreen d e1 (snd r2) = false
  /\ isElementFullscreen d e2 (snd r2) = false.
Proof.
  intros wf Hne Hid s1 r2.
  destruct (toggleFullscreen_enter d e1 fs s wf) as (sE & E1 & St1 & _).
  assert (Hs1 : s1 = sE) by (unfold s1; rewrite E1; reflexivity).
  assert (Hget : Map_get (idOf d e2) (elementStates sE) = Some (savedState d e1 s)).
  { rewrite St1, <- Hid. apply Map_get_set_same. }
  destruct (toggleFullscreen_exit d e2 "" sE Hget) as (sX & EX & StX & InX & _).
  assert (Hr2 : r2 = (Returned, sX)) by (unfold r2; rewrite Hs1; exact EX).
  rewrite Hr2, Hs1. cbn [fst snd]. unfold isElementFullscreen.
  split; [rewrite Map_has_get, Hget; reflexivity|].
  split; [exact Hget|]. split; [reflexivity|]. split; [exact InX|].
  split; [rewrite StX, Hid; reflexivity|].
  split; [rewrite StX, Hid|rewrite StX]; apply Map_has_delete_same.
Qed.

Lemma sessions_keyed_by_id_witness :
  let s1 := snd (toggleFullscreen demo (Some 4) true "" demoState) in
  let r2 := toggleFullscreen demo (Some 8) false "" s1 in
  isElementFullscreen demo 8 s1 = true
  /\ Map_get (idOf demo 8) (elementStates s1) = Some (savedState demo 4 demoState)
  /\ fst r2 = Returned
  /\ inlineStyle (snd r2)
     = inlineStyle (restoreElementState 8 (savedState demo 4 demoState) s1)
  /\ elementStates (snd r2) = Map_delete (idOf demo 4) (elementStates s1)
  /\ isElementFullscreen demo 4 (snd r2) = false
  /\ isElementFullscreen demo 8 (snd r2) = false.
Proof.
  apply (sessions_keyed_by_id demo (e1 := 4) (e2 := 8) "" demoState);
    [reflexivity|discriminate|reflexivity].
Defined.

(** ** A reference that is not a live container *)

(** C6, as the code has it.  [toggleFullscreen] surfaces no error: every
    call returns.  With a [null] reference the caught error is logged and
    nothing else changes: store, style blocks and inline styles are as
    before.  An element is not asked whether it is in the document: any
    element, detached or not, is entered and its state stored. *)
Theorem toggleFullscreen_invalid_reference (d : DOM) (isFullscreen : bool)
    (fullscreenStyle : string) (s : State) :
  (forall element,
      fst (toggleFullscreen d element isFullscreen fullscreenStyle s) = Returned)
  /\ snd (toggleFullscreen d None isFullscreen fullscreenStyle s)
     = log (Error "Error toggling fullscreen:") s
  /\ (forall e,
         isElementFullscreen d e
           (snd (toggleFullscreen d (Some e) true fullscreenStyle s)) = true).
Proof.
  split; [intros element; apply toggleFullscreen_returns|]. split.
  - unfold toggleFullscreen, toggleFullscreen_try.
    destruct isFullscreen; reflexivity.
  - intros e. unfold isElementFullscreen.
    rewrite toggleFullscreen_enter_store, Map_has_get, Map_get_set_same.
    reflexivity.
Qed.

(** C6 as stated fails: with [null] no error reaches the caller, and the
    detached element 9 of the page is entered, which changes the store. *)
Lemma toggleFullscreen_invalid_counterexample :
  ~ (exists err, fst (toggleFullscreen demo None true "" demoState) = Thrown err)
  /\ connected demo 9 = false
  /\ ~ ((exists err, fst (toggleFullscreen demo (Some 9) true "" demoState) = Thrown err)
        /\ elementStates (snd (toggleFullscreen demo (Some 9) true "" demoState))
           = elementStates demoState).
Proof.
  split; [intros [err H]; discriminate H|].
  split; [reflexivity|].
  intros [[err H] _]. discriminate H.
Qed.

(** ** One handle for all style blocks *)

(** C2 at a failing input.  [p] (element 3) enters with a style text, then
    the block [a] inside it (element 4) enters with another; the manager
    keeps one handle, now to the block of [a].  When [p] leaves, the block
    of [a] is removed although [a] is still fullscreen; when [a] leaves,
    nothing is removed, and the block of [p] stays in the document. *)
Theorem two_sessions_one_handle :
  let s1 := snd (toggleFullscreen demo (Some 3) true "${blockId} .x {}" demoState) in
  let s2 := snd (toggleFullscreen demo (Some 4) true "${blockId} .y {}" s1) in
  let s3 := snd (toggleFullscreen demo (Some 3) false "" s2) in
  let s4 := snd (toggleFullscreen demo (Some 4) false "" s3) in
  headStyles s2 = [(0, "#p  .x {}"); (1, "#a  .y {}")]
  /\ fullscreenStyleElement s2 = Some 1
  /\ headStyles s3 = [(0, "#p  .x {}")]
  /\ isElementFullscreen demo 4 s3 = true
  /\ fullscreenStyleElement s3 = None
  /\ headStyles s4 = [(0, "#p  .x {}")]
  /\ elementStates s4 = [].
Proof. vm_compute. repeat split. Qed.

(** C5 at a failing input.  After the same two calls, [cleanup] empties
    the store and clears the handle, and the block injected for [p] is
    still in the document. *)
Theorem cleanup_leaves_style_block :
  let s1 := snd (toggleFullscreen demo (Some 3) true "${blockId} .x {}" demoState) in
  let s2 := snd (toggleFullscreen demo (Some 4) true "${blockId} .y {}" s1) in
  let s3 := cleanup demo s2 in
  elementStates s3 = []
  /\ fullscreenStyleElement s3 = None
  /\ headStyles s3 = [(0, "#p  .x {}")].
Proof. vm_compute. repeat split. Qed.

(** ** The sweep *)

Lemma Map_get_fold_delete (k : string) ids m :
  Map_get k (fold_left (fun m k' => Map_delete k' m) ids m)
  = if existsb (String.eqb k) ids then None else Map_get k m.
Proof.
  revert m. induction ids as [|k' ids IH]; intros m; simpl; [reflexivity|].
  rewrite IH. destruct (String.eqb k k') eqn:E; simpl.
  - apply String.eqb_eq in E. subst k'. rewrite Map_get_delete_same.
    destruct (existsb (String.eqb k) ids); reflexivity.
  - apply String.eqb_neq in E. rewrite Map_get_delete_other by exact E.
    reflexivity.
Qed.

Lemma schedulePeriodicCleanup_frame (intervalMs : nat) (s : State) :
  elementStates (schedulePeriodicCleanup intervalMs s) = elementStates s
  /\ fullscreenStyleElement (schedulePeriodicCleanup intervalMs s)
     = fullscreenStyleElement s
  /\ inlineStyle (schedulePeriodicCleanup intervalMs s) = inlineStyle s
  /\ headStyles (schedulePeriodicCleanup intervalMs s) = headStyles s
  /\ nextStyleElement (schedulePeriodicCleanup intervalMs s) = nextStyleElement s
  /\ console (schedulePeriodicCleanup intervalMs s) = console s.
Proof.
  unfold schedulePeriodicCleanup. destruct (cleanupTimer s); repeat split.
Qed.

Lemma sweepTick_store (d : DOM) (intervalMs : nat) (s : State) :
  elementStates (sweepTick d intervalMs s)
  = fold_left (fun m k => Map_delete k m) (invalidIds d s) (elementStates s).
Proof.
  unfold sweepTick.
  destruct (schedulePeriodicCleanup_frame intervalMs
              (with_elementStates
                 (fold_left (fun m k => Map_delete k m) (invalidIds d s)
                    (elementStates s)) s)) as (H & _).
  rewrite H. reflexivity.
Qed.

(** The page after the container [p] and all it holds has been taken out
    of the document. *)
Definition demoDestroyed : DOM :=
  mkDOM
    [ mkElement "" None [1; 2] true "block";
      mkElement "" (Some 0) [] true "none";
      mkElement "" (Some 0) [7] true "block";
      mkElement "p" None [4; 5; 6] false "block";
      mkElement "a" (Some 3) [] false "block";
      mkElement "b" (Some 3) [] false "flex";
      mkElement "c" (Some 3) [] false "inline";
      mkElement "nav" (Some 2) [8] true "block";
      mkElement "a" (Some 7) [] true "block";
      mkElement "x" None [10] false "block";
      mkElement "" (Some 9) [] false "block";
      mkElement "" None [] false "block" ]
    2.

(** C3, as the code has it.  After a tick of the sweep the store holds no
    session under an identifier that does not resolve to an element of the
    document, and it holds every other session unchanged. *)
Theorem sweepTick_evicts (d : DOM) (intervalMs : nat) (s : State) (k : string) :
  Map_get k (elementStates (sweepTick d intervalMs s))
  = match getElementById d k with
    | Some _ => Map_get k (elementStates s)
    | None => None
    end.
Proof.
  rewrite sweepTick_store, Map_get_fold_delete. unfold invalidIds.
  destruct (existsb (String.eqb k)
              (filter (fun elementId => match getElementById d elementId with
                                        | Some _ => false
                                        | None => true
                                        end) (Map_keys (elementStates s)))) eqn:E.
  - apply existsb_exists in E as [k' [Hin Hk]]. apply String.eqb_eq in Hk. subst k'.
    apply filter_In in Hin as [_ Hin].
    destruct (getElementById d k); [discriminate|reflexivity].
  - destruct (getElementById d k) eqn:G; [reflexivity|].
    destruct (Map_get k (elementStates s)) eqn:Eg; [|reflexivity].
    exfalso.
    assert (Hin : In k (Map_keys (elementStates s))).
    { apply Map_has_In. rewrite Map_has_get, Eg. reflexivity. }
    assert (existsb (String.eqb k)
              (filter (fun elementId => match getElementById d elementId with
                                        | Some _ => false
                                        | None => true
                                        end) (Map_keys (elementStates s))) = true);
      [|congruence].
    apply existsb_exists. exists k. split; [|apply String.eqb_refl].
    apply filter_In. split; [exact Hin|]. rewrite G. reflexivity.
Qed.

(** C3 as stated fails: the block [c] (element 6) enters with a style
    text and is then taken out of the document with [p]; the tick evicts
    its session, and its style block is still in the document, the handle
    still set. *)
Lemma sweepTick_counterexample :
  let s1 := snd (toggleFullscreen demo (Some 6) true "${blockId} .x {}" demoState) in
  let s2 := sweepTick demoDestroyed 300 s1 in
  getElementById demoDestroyed "c" = None
  /\ isElementFullscreen demo 6 s1 = true
  /\ isElementFullscreen demoDestroyed 6 s2 = false
  /\ ~ (headStyles s2 = [] /\ fullscreenStyleElement s2 = None)
  /\ headStyles s2 = [(0, "#c  .x {}")].
Proof.
  vm_compute. repeat split. intros [H _]. discriminate H.
Qed.

(** * Further properties of the manager *)

(** ** Which elements entering hides *)

(** The elements the loop of [saveElementState] visits: the container and
    its ancestors, up to but not including [document.body]. *)
Inductive walked (d : DOM) (C : node) : node -> Prop :=
| walked_self : C <> body d -> walked d C C
| walked_up (a p : node) :
    walked d C a -> parentOf d a = Some p -> p <> body d -> walked d C p.

Section Containment.
Variable d : DOM.
Hypothesis wf : dom_wf d = true.

(** What contains an element is numbered no later than it. *)
Lemma contains_fuel_le (f : nat) (a b : node) :
  contains_fuel d f a b = true -> a <= b.
Proof.
  revert b. induction f as [|f IH]; intros b; simpl.
  - destruct (a =? b) eqn:E; [|discriminate]. apply Nat.eqb_eq in E. lia.
  - destruct (a =? b) eqn:E; [apply Nat.eqb_eq in E; lia|].
    destruct (parentOf d b) as [p|] eqn:Ep; [|discriminate].
    intros H. apply IH in H. pose proof (parent_before d wf _ Ep). lia.
Qed.

Lemma contains_fuel_enough (f1 f2 : nat) (a b : node) :
  b <= f1 -> b <= f2 -> contains_fuel d f1 a b = contains_fuel d f2 a b.
Proof.
  revert f2 b. induction f1 as [|f1 IH]; intros f2 b H1 H2.
  - assert (b = 0) by lia. subst b.
    assert (Hp : parentOf d 0 = None).
    { destruct (parentOf d 0) as [p|] eqn:Ep; [|reflexivity].
      pose proof (parent_before d wf _ Ep). lia. }
    destruct f2; simpl; [reflexivity|]. rewrite Hp. reflexivity.
  - destruct f2 as [|f2].
    + assert (b = 0) by lia. subst b.
      assert (Hp : parentOf d 0 = None).
      { destruct (parentOf d 0) as [p|] eqn:Ep; [|reflexivity].
        pose proof (parent_before d wf _ Ep). lia. }
      simpl. rewrite Hp. reflexivity.
    + simpl. destruct (a =? b); [reflexivity|].
      destruct (parentOf d b) as [p|] eqn:Ep; [|reflexivity].
      pose proof (parent_before d wf _ Ep). apply IH; lia.
Qed.

(** [a.contains(b)] holds when [b] is [a] or the parent of [b] is
    contained in [a]. *)
Lemma contains_step (a b : node) :
  contains d a b
  = (a =? b) || match parentOf d b with
                | Some p => contains d a p
                | None => false
                end.
Proof.
  unfold contains. destruct (parentOf d b) as [p|] eqn:Ep.
  - pose proof (parent_before d wf _ Ep) as Hlt.
    pose proof (parentOf_in_range d _ Ep) as Hb.
    destruct (List.length (elements d)) as [|n] eqn:El; [lia|].
    transitivity ((a =? b) || contains_fuel d n a p).
    + cbn [contains_fuel]. rewrite Ep. destruct (a =? b); reflexivity.
    + f_equal. apply contains_fuel_enough; lia.
  - destruct (List.length (elements d)); simpl; rewrite ?Ep;
      destruct (a =? b); reflexivity.
Qed.

Lemma contains_le (a b : node) : contains d a b = true -> a <= b.
Proof. apply contains_fuel_le. Qed.

(** Two children of one parent do not contain each other. *)
Lemma sibling_not_contains (p n c : node) :
  parentOf d n = Some p -> parentOf d c = Some p -> n <> c -> contains d n c = false.
Proof.
  intros Hn Hc Hne. rewrite contains_step, Hc.
  destruct (n =? c) eqn:E; [apply Nat.eqb_eq in E; contradiction|]. simpl.
  destruct (contains d n p) eqn:E'; [|reflexivity].
  apply contains_le in E'. pose proof (parent_before d wf _ Hn). lia.
Qed.

(** On a tree the two [contains] tests of [saveElementState] never fire:
    a level hides the children of the parent other than the current
    element. *)
Lemma siblingsToHide_others (cur p : node) :
  parentOf d cur = Some p ->
  siblingsToHide d cur = filter (fun sibling => negb (sibling =? cur)) (childrenOf d p).
Proof.
  intros Hp. unfold siblingsToHide. rewrite Hp. apply filter_ext_in.
  intros c Hc. destruct (c =? cur) eqn:E; [reflexivity|]. simpl.
  apply Nat.eqb_neq in E. pose proof (child_parent d wf _ _ Hc) as Hcp.
  rewrite (sibling_not_contains (p := p) Hp Hcp) by congruence.
  rewrite (sibling_not_contains (p := p) Hcp Hp) by congruence.
  reflexivity.
Qed.

Lemma hideTargets_fuel_enough (f1 f2 : nat) (cur : node) :
  cur < f1 -> cur < f2 ->
  hideTargets d f1 (Some cur) = hideTargets d f2 (Some cur).
Proof.
  revert f2 cur. induction f1 as [|f1 IH]; intros f2 cur H1 H2; [lia|].
  destruct f2 as [|f2]; [lia|]. simpl.
  destruct (cur =? body d); [reflexivity|]. f_equal.
  destruct (parentOf d cur) as [p|] eqn:E.
  - pose proof (parent_before d wf _ E). apply IH; lia.
  - destruct f1, f2; reflexivity.
Qed.

Lemma walked_le (C a : node) : walked d C a -> a <= C.
Proof.
  induction 1 as [|a p _ IH Hp _]; [lia|].
  pose proof (parent_before d wf _ Hp). lia.
Qed.

Lemma walked_not_body (C a : node) : walked d C a -> a <> body d.
Proof. induction 1; assumption. Qed.

Lemma hideTargets_walked (C a : node) (f : nat) :
  walked d C a -> C < f ->
  incl (hideTargets d f (Some a)) (hideTargets d f (Some C)).
Proof.
  intros Hw Hf. induction Hw as [|a p Hw IH Hp Hnb]; [apply incl_refl|].
  intros h Hh. apply IH.
  pose proof (walked_le Hw) as Hle. pose proof (walked_not_body Hw) as Hab.
  pose proof (parent_before d wf _ Hp) as Hlt.
  destruct f as [|f]; [lia|]. cbn [hideTargets].
  apply Nat.eqb_neq in Hab. rewrite Hab. apply in_or_app. right.
  rewrite Hp. rewrite (hideTargets_fuel_enough (f1 := f) (f2 := S f)) by lia.
  exact Hh.
Qed.

Lemma hideTargets_sound (f : nat) (cur h : node) :
  In h (hideTargets d f (Some cur)) ->
  exists a p, walked d cur a /\ parentOf d a = Some p
              /\ In h (childrenOf d p) /\ h <> a.
Proof.
  revert cur. induction f as [|f IH]; intros cur; simpl; [contradiction|].
  destruct (cur =? body d) eqn:Eb; [contradiction|]. apply Nat.eqb_neq in Eb.
  intros H. apply in_app_or in H as [H|H].
  - destruct (parentOf d cur) as [p|] eqn:Ep.
    + rewrite siblingsToHide_others with (p := p) in H by exact Ep.
      apply filter_In in H as [Hin Hne].
      apply negb_true_iff, Nat.eqb_neq in Hne.
      exists cur, p. split; [constructor; exact Eb|]. auto.
    + unfold siblingsToHide in H. rewrite Ep in H. contradiction.
  - destruct (parentOf d cur) as [p|] eqn:Ep; [|destruct f; contradiction].
    destruct (Nat.eq_dec p (body d)) as [Hb|Hb].
    + subst p. destruct f; simpl in H; [contradiction|].
      rewrite Nat.eqb_refl in H. contradiction.
    + apply IH in H as (a & q & Hw & Hq & Hin & Hne).
      exists a, q. split; [|auto].
      clear - Hw Ep Hb Eb. induction Hw as [|a q' Hw IH Hq' Hnb].
      * apply walked_up with (a := cur); [constructor; exact Eb|exact Ep|exact Hb].
      * apply walked_up with (a := a); assumption.
Qed.

Lemma walked_in_range (C a p : node) :
  walked d C a -> parentOf d a = Some p -> C < List.length (elements d).
Proof.
  intros Hw. revert p. induction Hw as [|a q Hw IH Hq _]; intros p Hp.
  - exact (parentOf_in_range d _ Hp).
  - exact (IH q Hq).
Qed.

(** The hidden elements are the children, other than the visited element
    itself, of the parents of the visited elements. *)
Theorem suppressed_iff (C h : node) :
  In h (suppressed d C)
  <-> exists a p, walked d C a /\ parentOf d a = Some p
                  /\ In h (childrenOf d p) /\ h <> a.
Proof.
  split; [apply hideTargets_sound|].
  intros (a & p & Hw & Hp & Hin & Hne).
  assert (HC : C < S (List.length (elements d))).
  { pose proof (walked_in_range Hw Hp). lia. }
  apply (hideTargets_walked Hw HC).
  pose proof (walked_le Hw) as Hle. pose proof (walked_not_body Hw) as Hab.
  cbn [hideTargets]. apply Nat.eqb_neq in Hab. rewrite Hab.
  apply in_or_app. left. rewrite siblingsToHide_others with (p := p) by exact Hp.
  apply filter_In. split; [exact Hin|].
  apply negb_true_iff, Nat.eqb_neq. exact Hne.
Qed.

Lemma contains_walked (C a h : node) :
  walked d C a -> contains d h C = true ->
  contains d h a = true \/ exists q, parentOf d h = Some q /\ a <= q.
Proof.
  intros Hw Hc. induction Hw as [|a p Hw IH Hp _]; [left; exact Hc|].
  pose proof (parent_before d wf _ Hp) as Hlt.
  destruct IH as [IH|[q [Hq Hle]]].
  - rewrite contains_step, Hp in IH.
    destruct (h =? a) eqn:E.
    + apply Nat.eqb_eq in E. subst h. right. exists p. split; [exact Hp|lia].
    + left. exact IH.
  - right. exists q. split; [exact Hq|lia].
Qed.

(** Entering hides neither the container, nor an element that holds it,
    nor an element inside it. *)
Theorem suppressed_apart (C h : node) :
  In h (suppressed d C) -> contains d h C = false /\ contains d C h = false.
Proof.
  intros H. destruct (hideTargets_parent d wf _ _ _ H) as (p & Hp & Hlt & Hne).
  split.
  - apply hideTargets_sound in H as (a & q & Hw & Hq & Hin & Hna).
    pose proof (child_parent d wf _ _ Hin) as Hhq.
    destruct (contains d h C) eqn:E; [|reflexivity]. exfalso.
    destruct (@contains_walked C a h Hw E) as [Hc|[q' [Hq' Hle]]].
    + rewrite (sibling_not_contains (p := q) Hhq Hq Hna) in Hc. discriminate.
    + rewrite Hhq in Hq'. injection Hq' as <-.
      pose proof (parent_before d wf _ Hq). lia.
  - destruct (contains d C h) eqn:E; [|reflexivity].
    rewrite contains_step, Hp in E.
    destruct (C =? h) eqn:E1; [apply Nat.eqb_eq in E1; congruence|]. simpl in E.
    apply contains_le in E. lia.
Qed.
End Containment.

Lemma suppressed_iff_witness :
  In 7 (suppressed demo 4)
  <-> exists a p, walked demo 4 a /\ parentOf demo a = Some p
                  /\ In 7 (childrenOf demo p) /\ 7 <> a.
Proof. apply (suppressed_iff demo). reflexivity. Defined.

Lemma suppressed_apart_witness :
  contains demo 7 4 = false /\ contains demo 4 7 = false.
Proof.
  apply (suppressed_apart demo); [reflexivity|].
  simpl. right. right. left. reflexivity.
Defined.

(** The loop of [saveElementState] ends within the rounds it is given:
    for an element of the tree, more rounds give the same result. *)
Theorem hideSiblings_terminates (d : DOM) (e extra : nat)
    (acc : list (node * string) * State) :
  dom_wf d = true ->
  e < List.length (elements d) ->
  hideSiblings d (S (List.length (elements d)) + extra) (Some e) acc
  = hideSiblings d (S (List.length (elements d))) (Some e) acc.
Proof.
  intros wf He. apply hideSiblings_fuel_enough; [exact wf|lia|lia].
Qed.

Lemma hideSiblings_terminates_witness :
  hideSiblings demo (S (List.length (elements demo)) + 5) (Some 4) ([], demoState)
  = hideSiblings demo (S (List.length (elements demo))) (Some 4) ([], demoState).
Proof.
  apply (hideSiblings_terminates demo 5 ([], demoState)); [reflexivity|].
  simpl. lia.
Defined.

(** ** What entering leaves *)



(** ** Entering twice, then leaving *)



(** ** Style blocks *)

(** Every style element of the head was created before now: its identity
    is below the next one to be given out. *)
Definition head_fresh (s : State) : bool :=
  forallb (fun e => fst e <? nextStyleElement s) (headStyles s).

Lemma filter_all_true {A : Type} (f : A -> bool) (l : list A) :
  forallb f l = true -> filter f l = l.
Proof.
  induction l as [|x l IH]; simpl; [reflexivity|].
  intros H. apply andb_prop in H as [Hx Hl]. rewrite Hx, IH by exact Hl. reflexivity.
Qed.

Lemma filter_fresh (h : nat) (l : list (nat * string)) :
  forallb (fun e => fst e <? h) l = true ->
  filter (fun e => negb (fst e =? h)) l = l.
Proof.
  intros H. apply filter_all_true. rewrite forallb_forall in *.
  intros x Hx. specialize (H x Hx). apply Nat.ltb_lt in H.
  apply negb_true_iff, Nat.eqb_neq. lia.
Qed.

(** Entering with a style text appends one block, with the processed
    text, to the head; leaving removes that block and only that block:
    the head is as before. *)
Theorem style_block_round_trip (d : DOM) (e : node) (fs : string) (s : State) :
  dom_wf d = true ->
  head_fresh s = true ->
  fs <> "" ->
  let s1 := snd (toggleFullscreen d (Some e) true fs s) in
  let s2 := snd (toggleFullscreen d (Some e) false "" s1) in
  headStyles s1
  = headStyles s ++ [(nextStyleElement s, processFullscreenStyle fs (idOf d e))]
  /\ fullscreenStyleElement s1 = Some (nextStyleElement s)
  /\ headStyles s2 = headStyles s
  /\ fullscreenStyleElement s2 = None.
Proof.
  intros wf Hfresh Hfs s1 s2.
  destruct (toggleFullscreen_enter d e fs s wf)
    as (x1 & E1 & St1 & _ & _ & _ & _ & _ & _ & _ & Hhead).
  assert (Efs : String.eqb fs "" = false) by (apply String.eqb_neq; exact Hfs).
  rewrite Efs in Hhead. destruct Hhead as (Hd1 & Hh1 & _).
  assert (H1 : s1 = x1) by (unfold s1; rewrite E1; reflexivity).
  assert (Hget : Map_get (idOf d e) (elementStates x1) = Some (savedState d e s)).
  { rewrite St1. apply Map_get_set_same. }
  destruct (toggleFullscreen_exit d e "" x1 Hget)
    as (x2 & E2 & _ & _ & Hh2 & Hd2 & _).
  assert (H2 : s2 = x2) by (unfold s2; rewrite H1, E2; reflexivity).
  rewrite H2, H1. split; [exact Hd1|]. split; [exact Hh1|]. split; [|exact Hh2].
  rewrite Hd2, removeAddedStyle_head, Hh1, Hd1, filter_app. simpl.
  rewrite Nat.eqb_refl. simpl. rewrite app_nil_r.
  apply filter_fresh. exact Hfresh.
Qed.

Lemma style_block_round_trip_witness :
  let s1 := snd (toggleFullscreen demo (Some 4) true "${blockId} .x {}" demoState) in
  let s2 := snd (toggleFullscreen demo (Some 4) false "" s1) in
  headStyles s1
  = headStyles demoState
    ++ [(nextStyleElement demoState,
         processFullscreenStyle "${blockId} .x {}" (idOf demo 4))]
  /\ fullscreenStyleElement s1 = Some (nextStyleElement demoState)
  /\ headStyles s2 = headStyles demoState
  /\ fullscreenStyleElement s2 = None.
Proof.
  apply (style_block_round_trip demo 4 (fs := "${blockId} .x {}") demoState);
    [reflexivity|reflexivity|discriminate].
Defined.

Lemma forallb_lt_weaken (h : nat) (l : list (nat * string)) :
  forallb (fun e => fst e <? h) l = true ->
  forallb (fun e => fst e <? S h) l = true.
Proof.
  rewrite !forallb_forall. intros H x Hx. specialize (H x Hx).
  apply Nat.ltb_lt in H. apply Nat.ltb_lt. lia.
Qed.

Lemma forallb_filter_keep {A : Type} (f g : A -> bool) (l : list A) :
  forallb f l = true -> forallb f (filter g l) = true.
Proof.
  rewrite !forallb_forall. intros H x Hx. apply filter_In in Hx as [Hx _]. auto.
Qed.

(** The freshness of the style elements is kept by every call of
    [toggleFullscreen]. *)
Theorem head_fresh_toggleFullscreen (d : DOM) (element : option node)
    (isFullscreen : bool) (fs : string) (s : State) :
  dom_wf d = true ->
  head_fresh s = true ->
  head_fresh (snd (toggleFullscreen d element isFullscreen fs s)) = true.
Proof.
  intros wf H. destruct element as [e|].
  - destruct isFullscreen.
    + destruct (toggleFullscreen_enter d e fs s wf)
        as (x1 & E1 & _ & _ & _ & _ & _ & _ & _ & _ & Hhead).
      rewrite E1. cbn [snd]. unfold head_fresh in *.
      destruct (String.eqb fs "").
      * destruct Hhead as (-> & _ & ->). exact H.
      * destruct Hhead as (-> & _ & ->). rewrite forallb_app.
        rewrite (forallb_lt_weaken _ _ H). cbn [forallb fst].
        replace (nextStyleElement s <? S (nextStyleElement s)) with true
          by (symmetry; apply Nat.ltb_lt; lia).
        reflexivity.
    + destruct (Map_get (idOf d e) (elementStates s)) as [st|] eqn:Eg.
      * destruct (toggleFullscreen_exit d e fs s Eg)
          as (x2 & E2 & _ & _ & _ & Hd2 & _ & Hn2 & _).
        rewrite E2. cbn [snd]. unfold head_fresh in *.
        rewrite Hd2, Hn2, removeAddedStyle_head.
        destruct (fullscreenStyleElement s); [|exact H].
        apply forallb_filter_keep. exact H.
      * unfold toggleFullscreen, toggleFullscreen_try. rewrite Eg. exact H.
  - unfold toggleFullscreen, toggleFullscreen_try.
    destruct isFullscreen; exact H.
Qed.

Lemma head_fresh_toggleFullscreen_witness :
  head_fresh (snd (toggleFullscreen demo (Some 4) true "${blockId} .x {}" demoState))
  = true.
Proof.
  apply (head_fresh_toggleFullscreen demo (Some 4) true "${blockId} .x {}" demoState);
    reflexivity.
Defined.

(** Removing a style element twice is removing it once: the guard on
    [parentNode] makes the second call a no-op. *)
Theorem removeAddedStyle_idempotent (h : option nat) (s : State) :
  removeAddedStyle h (removeAddedStyle h s) = removeAddedStyle h s.
Proof.
  destruct h as [h|]; [|reflexivity]. unfold removeAddedStyle at 1.
  assert (Hno : hasParentNode h (removeAddedStyle (Some h) s) = false).
  { unfold hasParentNode. rewrite removeAddedStyle_head.
    destruct (existsb (fun e => fst e =? h)
                (filter (fun e => negb (fst e =? h)) (headStyles s))) eqn:E;
      [|reflexivity].
    apply existsb_exists in E as [x [Hx Hh]]. apply filter_In in Hx as [_ Hx].
    rewrite Hh in Hx. discriminate. }
  rewrite Hno. reflexivity.
Qed.

(** ** Sessions of other identifiers *)

Lemma Map_get_delete_none (k k' : string) m :
  Map_get k m = None -> Map_get k (Map_delete k' m) = None.
Proof.
  intros H. destruct (string_dec k k') as [->|Hne].
  - apply Map_get_delete_same.
  - rewrite Map_get_delete_other by exact Hne. exact H.
Qed.

(** A call of [toggleFullscreen] for an element reads and writes the
    store under the identifier of that element only. *)
Theorem toggleFullscreen_other_sessions (d : DOM) (e : node) (isFullscreen : bool)
    (fs : string) (s : State) (k : string) :
  k <> idOf d e ->
  Map_get k (elementStates (snd (toggleFullscreen d (Some e) isFullscreen fs s)))
  = Map_get k (elementStates s).
Proof.
  intros Hne. destruct isFullscreen.
  - rewrite toggleFullscreen_enter_store. apply Map_get_set_other. exact Hne.
  - rewrite toggleFullscreen_exit_store. apply Map_get_delete_other. exact Hne.
Qed.

Lemma toggleFullscreen_other_sessions_witness :
  Map_get "a"
    (elementStates
       (snd (toggleFullscreen demo (Some 5) true ""
               (snd (toggleFullscreen demo (Some 4) true "" demoState)))))
  = Map_get "a" (elementStates (snd (toggleFullscreen demo (Some 4) true "" demoState))).
Proof.
  apply (toggleFullscreen_other_sessions demo 5 true ""
           (snd (toggleFullscreen demo (Some 4) true "" demoState))).
  discriminate.
Defined.

(** ** Cleanup *)

Lemma exitFullscreen_frame (d : DOM) (e : node) (s : State) :
  cleanupTimer (snd (exitFullscreen d e s)) = cleanupTimer s
  /\ timers (snd (exitFullscreen d e s)) = timers s
  /\ nextTimer (snd (exitFullscreen d e s)) = nextTimer s
  /\ nextStyleElement (snd (exitFullscreen d e s)) = nextStyleElement s.
Proof.
  unfold exitFullscreen, isElementFullscreen. rewrite Map_has_get.
  destruct (Map_get (idOf d e) (elementStates s)) as [st|] eqn:Eg.
  - destruct (toggleFullscreen_exit d e "" s Eg)
      as (x & E & _ & _ & _ & _ & H1 & H2 & H3 & H4 & _).
    rewrite E. cbn [snd]. auto.
  - cbn [snd]. auto.
Qed.

(** [exitFullscreen] does not throw, so the [catch] of the callback of
    [cleanup] is never entered. *)
Lemma cleanupEntry_eq (d : DOM) (k : string) (s : State) :
  cleanupEntry d k s
  = match getElementById d k with
    | Some element => snd (exitFullscreen d element s)
    | None => with_elementStates (Map_delete k (elementStates s)) s
    end.
Proof.
  unfold cleanupEntry. destruct (getElementById d k) as [e|]; [|reflexivity].
  pose proof (exitFullscreen_returns d e s) as H.
  destruct (exitFullscreen d e s) as [[|err] s']; [reflexivity|discriminate H].
Qed.

Lemma cleanupEntry_frame (d : DOM) (k : string) (s : State) :
  cleanupTimer (cleanupEntry d k s) = cleanupTimer s
  /\ timers (cleanupEntry d k s) = timers s.
Proof.
  rewrite cleanupEntry_eq. destruct (getElementById d k) as [e|].
  - destruct (exitFullscreen_frame d e s) as (H1 & H2 & _). auto.
  - auto.
Qed.

(** A property every callback keeps is kept by [forEach]. *)
Lemma Map_forEach_invariant (P : State -> Prop) (f : string -> State -> State)
    (s : State) :
  (forall k s', In k (Map_keys (elementStates s)) -> P s' -> P (f k s')) ->
  P s -> P (Map_forEach f s).
Proof.
  unfold Map_forEach. generalize (Map_keys (elementStates s)) as l.
  intros l. revert s. induction l as [|k l IH]; intros s Hf Hs; [exact Hs|].
  simpl. apply IH.
  - intros k' s' Hk. apply Hf. right. exact Hk.
  - destruct (Map_has k (elementStates s)); [|exact Hs].
    apply Hf; [left; reflexivity|exact Hs].
Qed.

(** After [cleanup] the store is empty, the handle and the timer field
    are [null], and the timer the manager had pending is cancelled; the
    other timers of the page are still pending. *)
Theorem cleanup_final (d : DOM) (s : State) :
  elementStates (cleanup d s) = []
  /\ fullscreenStyleElement (cleanup d s) = None
  /\ cleanupTimer (cleanup d s) = None
  /\ timers (cleanup d s)
     = match cleanupTimer s with
       | Some t => filter (fun t' => negb (t' =? t)) (timers s)
       | None => timers s
       end.
Proof.
  unfold cleanup.
  set (s1 := match cleanupTimer s with
             | Some t => with_cleanupTimer None (clearTimeout t s)
             | None => s
             end).
  assert (H1 : cleanupTimer s1 = None
               /\ timers s1 = match cleanupTimer s with
                              | Some t => filter (fun t' => negb (t' =? t)) (timers s)
                              | None => timers s
                              end).
  { unfold s1. destruct (cleanupTimer s) eqn:E; auto. }
  clearbody s1.
  assert (H2 : cleanupTimer (Map_forEach (cleanupEntry d) s1) = cleanupTimer s1
               /\ timers (Map_forEach (cleanupEntry d) s1) = timers s1).
  { apply (Map_forEach_invariant
             (fun x => cleanupTimer x = cleanupTimer s1 /\ timers x = timers s1)).
    - intros k s' _ [Ha Hb]. destruct (cleanupEntry_frame d k s') as [Hc Hd].
      split; congruence.
    - auto. }
  set (s2 := Map_forEach (cleanupEntry d) s1) in *. clearbody s2.
  destruct H1 as [H1 H1']. destruct H2 as [H2 H2'].
  cbn [fullscreenStyleElement with_elementStates].
  destruct (fullscreenStyleElement s2) as [h|] eqn:Eh.
  - destruct (removeAddedStyle_frame (Some h) (with_elementStates [] s2))
      as (A1 & _ & A3 & _ & _ & A6 & _).
    cbn [elementStates fullscreenStyleElement cleanupTimer timers
         with_fullscreenStyleElement].
    rewrite A1, A3, A6.
    cbn [elementStates cleanupTimer timers with_elementStates].
    rewrite H2, H2'. repeat split; [exact H1|exact H1'].
  - cbn [elementStates fullscreenStyleElement cleanupTimer timers with_elementStates].
    rewrite H2, H2'. repeat split; [exact Eh|exact H1|exact H1'].
Qed.

Lemma getElementById_id (d : DOM) (k : string) (e : node) :
  getElementById d k = Some e -> idOf d e = k /\ connected d e = true /\ k <> "".
Proof.
  unfold getElementById. destruct (String.eqb k "") eqn:Ek; [discriminate|].
  intros H. apply find_some in H as [_ H]. apply andb_prop in H as [Hc Hi].
  apply String.eqb_eq in Hi. apply String.eqb_neq in Ek. auto.
Qed.

(** [cleanup] drops a session whose identifier resolves to no element of
    the document without restoring anything: when none resolves, every
    inline style is as before, so the siblings hidden for those sessions
    stay hidden. *)
Theorem cleanup_unresolved_restores_nothing (d : DOM) (s : State) :
  (forall k, In k (Map_keys (elementStates s)) -> getElementById d k = None) ->
  inlineStyle (cleanup d s) = inlineStyle s.
Proof.
  intros Hnone. unfold cleanup.
  set (s1 := match cleanupTimer s with
             | Some t => with_cleanupTimer None (clearTimeout t s)
             | None => s
             end).
  assert (H1 : inlineStyle s1 = inlineStyle s /\ elementStates s1 = elementStates s).
  { unfold s1. destruct (cleanupTimer s); auto. }
  destruct H1 as [H1 H1']. clearbody s1.
  assert (H2 : inlineStyle (Map_forEach (cleanupEntry d) s1) = inlineStyle s1).
  { apply (Map_forEach_invariant (fun x => inlineStyle x = inlineStyle s1)).
    - intros k s' Hk Hs'. rewrite cleanupEntry_eq.
      rewrite H1' in Hk. rewrite (Hnone k Hk). exact Hs'.
    - reflexivity. }
  set (s2 := Map_forEach (cleanupEntry d) s1) in *. clearbody s2.
  cbn [fullscreenStyleElement with_elementStates].
  destruct (fullscreenStyleElement s2) as [h|].
  - destruct (removeAddedStyle_frame (Some h) (with_elementStates [] s2))
      as (_ & _ & _ & A4 & _).
    cbn [inlineStyle with_fullscreenStyleElement]. rewrite A4.
    cbn [inlineStyle with_elementStates]. congruence.
  - cbn [inlineStyle with_elementStates]. congruence.
Qed.

Lemma cleanup_unresolved_restores_nothing_witness :
  inlineStyle (cleanup demo (snd (toggleFullscreen demo (Some 10) true "" demoState)))
  = inlineStyle (snd (toggleFullscreen demo (Some 10) true "" demoState)).
Proof.
  apply (cleanup_unresolved_restores_nothing demo
           (snd (toggleFullscreen demo (Some 10) true "" demoState))).
  intros k Hk. vm_compute in Hk. destruct Hk as [<-|[]]. reflexivity.
Defined.

Lemma writes_inline_ext (W : Type) (fn : W -> node) (fp : W -> StyleProp)
    (fv : W -> string) (l : list W) (s s' : State) :
  inlineStyle s = inlineStyle s' ->
  inlineStyle (writes fn fp fv l s) = inlineStyle (writes fn fp fv l s').
Proof.
  revert s s'. induction l as [|w l IH]; intros s s' H; [exact H|].
  simpl. apply IH. simpl. rewrite H. reflexivity.
Qed.

Lemma restoreElementState_inline_ext (e : node) (st : ElementState) (s s' : State) :
  inlineStyle s = inlineStyle s' ->
  inlineStyle (restoreElementState e st s) = inlineStyle (restoreElementState e st s').
Proof.
  intros H. rewrite !restoreElementState_writes.
  repeat apply writes_inline_ext. exact H.
Qed.

Lemma cleanup_loop_single (d : DOM) (s1 : State) (k : string) (st : ElementState)
    (e : node) :
  elementStates s1 = [(k, st)] ->
  getElementById d k = Some e ->
  inlineStyle (Map_forEach (cleanupEntry d) s1)
  = inlineStyle (restoreElementState e st s1)
  /\ headStyles (Map_forEach (cleanupEntry d) s1)
     = headStyles (removeAddedStyle (fullscreenStyleElement s1) s1)
  /\ fullscreenStyleElement (Map_forEach (cleanupEntry d) s1) = None.
Proof.
  intros Hst Hget. destruct (getElementById_id d k Hget) as (Hid & _ & _).
  unfold Map_forEach. rewrite Hst. cbn [Map_keys map fst fold_left].
  rewrite Hst. cbn [Map_has]. rewrite String.eqb_refl.
  rewrite cleanupEntry_eq, Hget. unfold exitFullscreen, isElementFullscreen.
  rewrite Hid, Hst. cbn [Map_has]. rewrite String.eqb_refl.
  assert (Hg : Map_get (idOf d e) (elementStates s1) = Some st).
  { rewrite Hid, Hst. cbn [Map_get]. rewrite String.eqb_refl. reflexivity. }
  destruct (toggleFullscreen_exit d e "" s1 Hg) as (x & E & _ & Hin & Hh & Hd & _).
  rewrite E. cbn [snd]. auto.
Qed.

(** With one session in the store, under an identifier that resolves to
    an element, [cleanup] does what leaving does for that element: the
    saved state is restored onto the element and the style block of the
    handle is removed. *)
Theorem cleanup_single_session (d : DOM) (s : State) (k : string)
    (st : ElementState) (e : node) :
  elementStates s = [(k, st)] ->
  getElementById d k = Some e ->
  inlineStyle (cleanup d s) = inlineStyle (restoreElementState e st s)
  /\ headStyles (cleanup d s)
     = headStyles (removeAddedStyle (fullscreenStyleElement s) s).
Proof.
  intros Hst Hget. unfold cleanup.
  set (s1 := match cleanupTimer s with
             | Some t => with_cleanupTimer None (clearTimeout t s)
             | None => s
             end).
  assert (H1 : elementStates s1 = elementStates s /\ inlineStyle s1 = inlineStyle s
               /\ headStyles s1 = headStyles s
               /\ fullscreenStyleElement s1 = fullscreenStyleElement s).
  { unfold s1. destruct (cleanupTimer s); auto. }
  destruct H1 as (A1 & A2 & A3 & A4). clearbody s1.
  rewrite <- A1 in Hst.
  destruct (cleanup_loop_single d s1 Hst Hget) as (B1 & B2 & B3).
  set (s2 := Map_forEach (cleanupEntry d) s1) in *. clearbody s2.
  cbn [fullscreenStyleElement with_elementStates]. rewrite B3.
  cbn [inlineStyle headStyles with_elementStates]. rewrite B1, B2.
  split.
  - apply restoreElementState_inline_ext. exact A2.
  - rewrite !removeAddedStyle_head, A4, A3. reflexivity.
Qed.

Lemma cleanup_single_session_witness :
  let s := snd (toggleFullscreen demo (Some 5) true "${blockId} .x {}" demoState) in
  inlineStyle (cleanup demo s)
  = inlineStyle (restoreElementState 5 (savedState demo 5 demoState) s)
  /\ headStyles (cleanup demo s)
     = headStyles (removeAddedStyle (fullscreenStyleElement s) s).
Proof.
  apply (cleanup_single_session demo
           (snd (toggleFullscreen demo (Some 5) true "${blockId} .x {}" demoState))
           (k := "b") (st := savedState demo 5 demoState) (e := 5));
    reflexivity.
Defined.

(** ** The sweep and its timer *)

Lemma fold_delete_filter (ids : list string) (m : list (string * ElementState)) :
  fold_left (fun m k => Map_delete k m) ids m
  = filter (fun kv => negb (existsb (String.eqb (fst kv)) ids)) m.
Proof.
  revert m. induction ids as [|k ids IH]; intros m; simpl.
  - symmetry. apply filter_all_true. apply forallb_forall. reflexivity.
  - rewrite IH. unfold Map_delete. clear IH.
    induction m as [|kv m IHm]; simpl; [reflexivity|].
    destruct (String.eqb (fst kv) k); simpl; [exact IHm|].
    destruct (existsb (String.eqb (fst kv)) ids); simpl; [exact IHm|].
    f_equal. exact IHm.
Qed.

(** [getElementById] finds an element of the document. *)
Definition resolves (d : DOM) (elementId : string) : bool :=
  match getElementById d elementId with
  | Some _ => true
  | None => false
  end.

Lemma sweepTick_store_filter (d : DOM) (intervalMs : nat) (s : State) :
  elementStates (sweepTick d intervalMs s)
  = filter (fun kv => resolves d (fst kv)) (elementStates s).
Proof.
  rewrite sweepTick_store, fold_delete_filter. apply filter_ext_in.
  intros [k v] Hin. cbn [fst]. unfold invalidIds, resolves.
  destruct (getElementById d k) eqn:G.
  - apply negb_true_iff.
    destruct (existsb (String.eqb k)
                (filter (fun elementId => match getElementById d elementId with
                                          | Some _ => false
                                          | None => true
                                          end) (Map_keys (elementStates s)))) eqn:E;
      [|reflexivity].
    apply existsb_exists in E as [k' [Hk' Hkk]]. apply String.eqb_eq in Hkk.
    subst k'. apply filter_In in Hk' as [_ Hk']. rewrite G in Hk'. discriminate.
  - apply negb_false_iff. apply existsb_exists. exists k.
    split; [|apply String.eqb_refl]. apply filter_In. split.
    + unfold Map_keys. apply in_map_iff. exists (k, v). auto.
    + rewrite G. reflexivity.
Qed.

(** One tick of the sweep keeps exactly the sessions whose identifier
    resolves, in their order, and touches nothing else of the manager or
    the page but the timer: inline styles, style blocks and the style
    handle are as before. *)
Theorem sweepTick_keeps_resolving (d : DOM) (intervalMs : nat) (s : State) :
  elementStates (sweepTick d intervalMs s)
  = filter (fun kv => resolves d (fst kv)) (elementStates s)
  /\ inlineStyle (sweepTick d intervalMs s) = inlineStyle s
  /\ headStyles (sweepTick d intervalMs s) = headStyles s
  /\ fullscreenStyleElement (sweepTick d intervalMs s) = fullscreenStyleElement s.
Proof.
  split; [apply sweepTick_store_filter|].
  unfold sweepTick.
  destruct (schedulePeriodicCleanup_frame intervalMs
              (with_elementStates
                 (fold_left (fun m k => Map_delete k m) (invalidIds d s)
                    (elementStates s)) s)) as (_ & H2 & H3 & H4 & _).
  rewrite H2, H3, H4. auto.
Qed.

(** A second tick on the same document evicts nothing more. *)
Theorem sweepTick_twice (d : DOM) (i1 i2 : nat) (s : State) :
  elementStates (sweepTick d i2 (sweepTick d i1 s))
  = elementStates (sweepTick d i1 s).
Proof.
  rewrite (sweepTick_store_filter d i2 (sweepTick d i1 s)).
  rewrite (sweepTick_store_filter d i1 s).
  apply filter_all_true. apply forallb_forall.
  intros x Hx. apply filter_In in Hx as [_ Hx]. exact Hx.
Qed.

(** Every pending timer, and the one the manager holds, was created
    before now. *)
Definition timers_fresh (s : State) : bool :=
  forallb (fun t => t <? nextTimer s) (timers s)
  && match cleanupTimer s with
     | Some t => t <? nextTimer s
     | None => true
     end.

(** [schedulePeriodicCleanup] leaves one timer of the manager pending:
    the new one is pending and held in [cleanupTimer], the one held
    before is cancelled, and the other timers of the page stay. *)
Theorem schedulePeriodicCleanup_single_timer (intervalMs : nat) (s : State) :
  timers_fresh s = true ->
  let s' := schedulePeriodicCleanup intervalMs s in
  cleanupTimer s' = Some (nextTimer s)
  /\ In (nextTimer s) (timers s')
  /\ (forall t0, cleanupTimer s = Some t0 -> ~ In t0 (timers s'))
  /\ (forall t, cleanupTimer s <> Some t -> In t (timers s) -> In t (timers s'))
  /\ timers_fresh s' = true.
Proof.
  intros Hf s'. unfold timers_fresh in Hf. apply andb_prop in Hf as [Hall Hold].
  rewrite forallb_forall in Hall.
  unfold s', schedulePeriodicCleanup, setTimeout.
  destruct (cleanupTimer s) as [t0|] eqn:Et;
    cbn [cleanupTimer timers nextTimer with_cleanupTimer with_timers clearTimeout].
  - apply Nat.ltb_lt in Hold. split; [reflexivity|].
    split; [apply in_or_app; right; left; reflexivity|]. split; [|split].
    + intros t Ht. injection Ht as <-. intros Hin.
      apply in_app_or in Hin as [Hin|[Hin|[]]].
      * apply filter_In in Hin as [_ Hin]. rewrite Nat.eqb_refl in Hin. discriminate.
      * lia.
    + intros t Hne Hin. apply in_or_app. left. apply filter_In.
      split; [exact Hin|]. apply negb_true_iff, Nat.eqb_neq. congruence.
    + unfold timers_fresh.
      cbn [cleanupTimer timers nextTimer with_cleanupTimer with_timers].
      apply andb_true_intro. split; [|apply Nat.ltb_lt; lia].
      apply forallb_forall. intros t Hin. apply Nat.ltb_lt.
      apply in_app_or in Hin as [Hin|[<-|[]]]; [|lia].
      apply filter_In in Hin as [Hin _]. specialize (Hall t Hin).
      apply Nat.ltb_lt in Hall. lia.
  - split; [reflexivity|].
    split; [apply in_or_app; right; left; reflexivity|]. split; [|split].
    + intros t Ht. discriminate Ht.
    + intros t _ Hin. apply in_or_app. left. exact Hin.
    + unfold timers_fresh.
      cbn [cleanupTimer timers nextTimer with_cleanupTimer with_timers].
      apply andb_true_intro. split; [|apply Nat.ltb_lt; lia].
      apply forallb_forall. intros t Hin. apply Nat.ltb_lt.
      apply in_app_or in Hin as [Hin|[<-|[]]]; [|lia].
      specialize (Hall t Hin). apply Nat.ltb_lt in Hall. lia.
Qed.

Lemma schedulePeriodicCleanup_single_timer_witness :
  let s := schedulePeriodicCleanup 300 demoState in
  let s' := schedulePeriodicCleanup 300 s in
  cleanupTimer s' = Some (nextTimer s)
  /\ In (nextTimer s) (timers s')
  /\ (forall t0, cleanupTimer s = Some t0 -> ~ In t0 (timers s'))
  /\ (forall t, cleanupTimer s <> Some t -> In t (timers s) -> In t (timers s'))
  /\ timers_fresh s' = true.
Proof.
  apply (schedulePeriodicCleanup_single_timer 300 (schedulePeriodicCleanup 300 demoState)).
  reflexivity.
Defined.

(** ** More on the placeholder *)

Lemma replaceAll_fuel_none (f : nat) (template before s : string) :
  occurrences placeholder s = 0 -> replaceAll_fuel f template before s = s.
Proof.
  revert before s. induction f as [|f IH]; intros before s H; [reflexivity|].
  destruct s as [|c r]; [reflexivity|].
  cbn [occurrences] in H. apply Nat.eq_add_0 in H as [Hhere Hrest].
  cbn [replaceAll_fuel].
  destruct (String.prefix placeholder (String c r)); [discriminate Hhere|].
  f_equal. apply IH. exact Hrest.
Qed.

(** A style text without the placeholder is injected as it is, whatever
    the identifier. *)
Theorem processFullscreenStyle_without_placeholder (style blockId : string) :
  occurrences placeholder style = 0 ->
  processFullscreenStyle style blockId = style.
Proof. intros H. apply replaceAll_fuel_none. exact H. Qed.

Lemma processFullscreenStyle_without_placeholder_witness :
  processFullscreenStyle ".x { color: #f0f0f0; margin: $1 }" "a$&b"
  = ".x { color: #f0f0f0; margin: $1 }".
Proof.
  apply (processFullscreenStyle_without_placeholder
           ".x { color: #f0f0f0; margin: $1 }" "a$&b").
  reflexivity.
Defined.

Lemma string_length_append (a b : string) :
  String.length (a ++ b)%string = String.length a + String.length b.
Proof. induction a as [|c a IH]; simpl; [reflexivity|]. rewrite IH. reflexivity. Qed.

Lemma scopedSelector_length (blockId : string) :
  String.length (scopedSelector blockId) = String.length blockId + 2.
Proof.
  unfold scopedSelector. simpl. rewrite string_length_append. simpl. lia.
Qed.

Lemma replaceAll_fuel_length (blockId : string) (f : nat) (before s : string) :
  hasChar "$" blockId = false ->
  String.length s <= f ->
  String.length (replaceAll_fuel f (scopedSelector blockId) before s)
  + String.length placeholder * occurrences placeholder s
  = String.length s + (String.length blockId + 2) * occurrences placeholder s.
Proof.
  intros Hd. revert before s. induction f as [|f IH]; intros before s Hlen.
  - destruct s; [|simpl in Hlen; lia].
    cbn [replaceAll_fuel occurrences String.length]. lia.
  - destruct s as [|c r];
      [cbn [replaceAll_fuel occurrences String.length]; lia|].
    destruct (String.prefix placeholder (String c r)) eqn:E.
    + rewrite (@replaceAll_fuel_match blockId Hd f before (String c r) E).
      pose proof (prefix_split _ _ E) as Hs.
      assert (Hlt : String.length
                      (dropString (String.length placeholder) (String c r)) <= f).
      { rewrite dropString_length. simpl in *. lia. }
      remember (dropString (String.length placeholder) (String c r)) as t eqn:Et.
      clear Et. specialize (IH (before ++ placeholder)%string t Hlt).
      rewrite Hs.
      pose proof (occurrences_self "$" "{blockId}" t eq_refl) as HP.
      change (String "$" "{blockId}") with placeholder in HP. rewrite HP.
      rewrite !string_length_append, scopedSelector_length.
      set (N := occurrences placeholder t) in *.
      set (L := String.length blockId + 2) in *.
      set (P := String.length placeholder) in *.
      rewrite !Nat.mul_succ_r. lia.
    + rewrite (@replaceAll_fuel_step blockId f before c r E).
      cbn [occurrences]. rewrite E. cbn [String.length Nat.add].
      specialize (IH (before ++ String c "")%string r).
      simpl in Hlen. specialize (IH ltac:(lia)). lia.
Qed.

(** For an identifier without [$], each placeholder (ten characters) is
    replaced by the selector (the identifier and two characters more),
    and nothing else changes the length of the text. *)
Theorem processFullscreenStyle_length (style blockId : string) :
  hasChar "$" blockId = false ->
  String.length (processFullscreenStyle style blockId)
  + 10 * occurrences placeholder style
  = String.length style
    + (String.length blockId + 2) * occurrences placeholder style.
Proof.
  intros Hd. unfold processFullscreenStyle, replaceAll.
  change 10 with (String.length placeholder).
  apply (@replaceAll_fuel_length blockId (String.length style) "" style Hd). lia.
Qed.

Lemma processFullscreenStyle_length_witness :
  String.length (processFullscreenStyle "${blockId} a, ${blockId} b {}" "id-1")
  + 10 * occurrences placeholder "${blockId} a, ${blockId} b {}"
  = String.length "${blockId} a, ${blockId} b {}"
    + (String.length "id-1" + 2) * occurrences placeholder "${blockId} a, ${blockId} b {}".
Proof.
  apply (processFullscreenStyle_length "${blockId} a, ${blockId} b {}" "id-1").
  reflexivity.
Defined.

(** For an identifier without [$], processing a processed text changes
    nothing. *)
Theorem processFullscreenStyle_idempotent (style blockId : string) :
  hasChar "$" blockId = false ->
  processFullscreenStyle (processFullscreenStyle style blockId) blockId
  = processFullscreenStyle style blockId.
Proof.
  intros Hd. unfold processFullscreenStyle at 1. unfold replaceAll.
  apply replaceAll_fuel_none.
  unfold processFullscreenStyle, replaceAll.
  apply (@replaceAll_no_placeholder blockId Hd). lia.
Qed.

Lemma processFullscreenStyle_idempotent_witness :
  processFullscreenStyle
    (processFullscreenStyle "${blockId} a, ${blockId} b {}" "id-1") "id-1"
  = processFullscreenStyle "${blockId} a, ${blockId} b {}" "id-1".
Proof.
  apply (processFullscreenStyle_idempotent "${blockId} a, ${blockId} b {}" "id-1").
  reflexivity.
Defined.

(** ** Sequences of calls *)

(** The public methods of the manager, and the tick of its timer. *)
Inductive Call : Type :=
| CallToggleFullscreen (element : option node) (isFullscreen : bool)
                       (fullscreenStyle : string)
| CallExitFullscreen (element : node)
| CallCleanup
| CallSchedulePeriodicCleanup (intervalMs : nat)
| CallSweepTick (intervalMs : nat).

Definition call (d : DOM) (c : Call) (s : State) : State :=
  match c with
  | CallToggleFullscreen element isFullscreen fullscreenStyle =>
      snd (toggleFullscreen d element isFullscreen fullscreenStyle s)
  | CallExitFullscreen element => snd (exitFullscreen d element s)
  | CallCleanup => cleanup d s
  | CallSchedulePeriodicCleanup intervalMs => schedulePeriodicCleanup intervalMs s
  | CallSweepTick intervalMs => sweepTick d intervalMs s
  end.

Definition run (d : DOM) (calls : list Call) (s : State) : State :=
  fold_left (fun s c => call d c s) calls s.

(** The call enters an element whose identifier is [k]. *)
Definition entersId (d : DOM) (k : string) (c : Call) : bool :=
  match c with
  | CallToggleFullscreen (Some e) true _ => String.eqb (idOf d e) k
  | _ => false
  end.

Lemma cleanup_store (d : DOM) (s : State) : elementStates (cleanup d s) = [].
Proof.
  unfold cleanup. cbn [fullscreenStyleElement with_elementStates].
  match goal with
  | |- context [match fullscreenStyleElement ?x with _ => _ end] =>
      destruct (fullscreenStyleElement x) as [h|]; [|reflexivity]
  end.
  cbn [elementStates with_fullscreenStyleElement].
  match goal with
  | |- elementStates (removeAddedStyle ?h ?x) = _ =>
      destruct (removeAddedStyle_frame h x) as (A & _); rewrite A; reflexivity
  end.
Qed.

Lemma call_keeps_absent (d : DOM) (k : string) (c : Call) (s : State) :
  entersId d k c = false ->
  Map_get k (elementStates s) = None ->
  Map_get k (elementStates (call d c s)) = None.
Proof.
  intros He Hk. destruct c as [[e|] [|] fs|e| |ms|ms]; cbn [call].
  - simpl in He. apply String.eqb_neq in He.
    rewrite toggleFullscreen_enter_store, Map_get_set_other by congruence. exact Hk.
  - rewrite toggleFullscreen_exit_store. apply Map_get_delete_none. exact Hk.
  - unfold toggleFullscreen, toggleFullscreen_try. exact Hk.
  - unfold toggleFullscreen, toggleFullscreen_try. exact Hk.
  - rewrite exitFullscreen_store. apply Map_get_delete_none. exact Hk.
  - rewrite cleanup_store. reflexivity.
  - destruct (schedulePeriodicCleanup_frame ms s) as (H & _). rewrite H. exact Hk.
  - rewrite sweepTick_store, Map_get_fold_delete.
    destruct (existsb (String.eqb k) (invalidIds d s)); [reflexivity|exact Hk].
Qed.

(** A session comes only from entering: under any sequence of calls none
    of which enters an element with the identifier [k], a store without a
    session for [k] stays without one. *)
Theorem session_only_by_entering (d : DOM) (k : string) (calls : list Call)
    (s : State) :
  forallb (fun c => negb (entersId d k c)) calls = true ->
  Map_get k (elementStates s) = None ->
  Map_get k (elementStates (run d calls s)) = None.
Proof.
  unfold run. revert s. induction calls as [|c calls IH]; intros s Hall Hk.
  - exact Hk.
  - simpl in Hall. apply andb_prop in Hall as [Hc Hall]. simpl.
    apply IH; [exact Hall|].
    apply call_keeps_absent; [apply negb_true_iff; exact Hc|exact Hk].
Qed.

Lemma session_only_by_entering_witness :
  Map_get "b"
    (elementStates
       (run demo [ CallToggleFullscreen (Some 4) true "${blockId} {}";
                   CallSchedulePeriodicCleanup 300;
                   CallExitFullscreen 5;
                   CallToggleFullscreen (Some 3) true "";
                   CallSweepTick 300;
                   CallToggleFullscreen (Some 5) false "" ] demoState))
  = None.
Proof.
  apply (session_only_by_entering demo "b"
           [ CallToggleFullscreen (Some 4) true "${blockId} {}";
             CallSchedulePeriodicCleanup 300;
             CallExitFullscreen 5;
             CallToggleFullscreen (Some 3) true "";
             CallSweepTick 300;
             CallToggleFullscreen (Some 5) false "" ] demoState);
    reflexivity.
Defined.

(** * The block component

    [FullscreenBlock.tsx]: the component holds a reference to its root
    element and a flag, gives the element an identifier when it has none,
    and calls the manager. *)

Fixpoint updateAt (n : nat) (f : Element -> Element) (l : list Element) : list Element :=
  match l, n with
  | [], _ => []
  | x :: r, 0 => f x :: r
  | x :: r, S n' => x :: updateAt n' f r
  end.

(** [element.id = newId]. *)
Definition setElementId (d : DOM) (e : node) (newId : string) : DOM :=
  mkDOM (updateAt e (fun el => mkElement newId (parentElement el) (children el)
                                         (isConnected el) (sheetDisplay el))
                  (elements d))
        (body d).

(** The state of the component: [rootElementRef.current] and the flag of
    [useState(false)]. *)
Record FullscreenBlock : Type := mkFullscreenBlock {
  rootElementRef : option node;
  isFullscreen : bool
}.

(** The custom style of the schema: the configuration object may be
    missing, and its [fullscreenStyle] may be missing or not a string; in
    both cases the style is the empty text. *)
Definition customStyleOf (customStyleConfig : option (option string)) : string :=
  match customStyleConfig with
  | Some (Some fullscreenStyle) => fullscreenStyle
  | _ => ""
  end.

(** [handleFullscreenToggle]; [nanoid] is the token [nanoid()] returns. *)
Definition handleFullscreenToggle (nanoid : string)
    (customStyleConfig : option (option string))
    (c : FullscreenBlock) (d : DOM) (s : State) : FullscreenBlock * DOM * State :=
  match rootElementRef c with
  | None => (c, d, s)
  | Some e =>
      let d' := if String.eqb (idOf d e) ""
                then setElementId d e ("fullscreen-block-container-" ++ nanoid)%string
                else d in
      let customStyle := customStyleOf customStyleConfig in
      let newFullscreenState := negb (isFullscreen c) in
      let s' := snd (toggleFullscreen d' (Some e) newFullscreenState customStyle s) in
      (mkFullscreenBlock (rootElementRef c) newFullscreenState, d', s')
  end.


Lemma nth_error_updateAt (n m : nat) (f : Element -> Element) (l : list Element) :
  nth_error (updateAt n f l) m
  = if m =? n then option_map f (nth_error l m) else nth_error l m.
Proof.
  revert n m. induction l as [|x l IH]; intros n m.
  - destruct n, m; simpl; try destruct (_ =? _); reflexivity.
  - destruct n as [|n]; destruct m as [|m]; simpl; try reflexivity. apply IH.
Qed.

Lemma length_updateAt (n : nat) (f : Element -> Element) (l : list Element) :
  List.length (updateAt n f l) = List.length l.
Proof.
  revert n. induction l as [|x l IH]; intros n; [destruct n; reflexivity|].
  destruct n; simpl; [reflexivity|]. rewrite IH. reflexivity.
Qed.

Lemma forallb_pointwise {A : Type} (f g : A -> bool) (l : list A) :
  (forall x, f x = g x) -> forallb f l = forallb g l.
Proof.
  intros H. induction l as [|x l IH]; simpl; [reflexivity|].
  rewrite H, IH. reflexivity.
Qed.

Section SetId.
Variables (d : DOM) (e : node) (newId : string).

Lemma parentOf_setElementId (n : node) :
  parentOf (setElementId d e newId) n = parentOf d n.
Proof.
  unfold parentOf, setElementId. cbn [elements]. rewrite nth_error_updateAt.
  destruct (n =? e); [|reflexivity]. destruct (nth_error (elements d) n); reflexivity.
Qed.

Lemma childrenOf_setElementId (n : node) :
  childrenOf (setElementId d e newId) n = childrenOf d n.
Proof.
  unfold childrenOf, setElementId. cbn [elements]. rewrite nth_error_updateAt.
  destruct (n =? e); [|reflexivity]. destruct (nth_error (elements d) n); reflexivity.
Qed.


Lemma idOf_setElementId (n : node) :
  idOf (setElementId d e newId) n
  = if (n =? e) && (n <? List.length (elements d)) then newId else idOf d n.
Proof.
  unfold idOf, setElementId. cbn [elements]. rewrite nth_error_updateAt.
  destruct (n =? e); [|reflexivity]. simpl.
  destruct (nth_error (elements d) n) eqn:E; simpl.
  - assert (n < List.length (elements d)) by (apply nth_error_Some; congruence).
    apply Nat.ltb_lt in H. rewrite H. reflexivity.
  - apply nth_error_None in E.
    destruct (n <? List.length (elements d)) eqn:E'; [|reflexivity].
    apply Nat.ltb_lt in E'. lia.
Qed.

(** Giving an element an identifier leaves the tree as it is. *)
Lemma dom_wf_setElementId : dom_wf (setElementId d e newId) = dom_wf d.
Proof.
  unfold dom_wf. unfold setElementId at 2. cbn [elements].
  rewrite length_updateAt. apply forallb_pointwise. intros n.
  unfold element_ok. rewrite parentOf_setElementId, childrenOf_setElementId.
  f_equal. f_equal. apply forallb_pointwise. intros c.
  rewrite parentOf_setElementId. reflexivity.
Qed.

End SetId.

(** After a click on the button the flag of the component is flipped and
    says what the manager says of the element. *)
Theorem handleFullscreenToggle_in_sync (nanoid : string)
    (customStyleConfig : option (option string))
    (c : FullscreenBlock) (d : DOM) (s : State) (e : node) :
  rootElementRef c = Some e ->
  let r := handleFullscreenToggle nanoid customStyleConfig c d s in
  isFullscreen (fst (fst r)) = negb (isFullscreen c)
  /\ isFullscreen (fst (fst r)) = isElementFullscreen (snd (fst r)) e (snd r).
Proof.
  intros Href r. unfold r, handleFullscreenToggle. rewrite Href.
  cbn [fst snd isFullscreen]. split; [reflexivity|].
  unfold isElementFullscreen. destruct (isFullscreen c); cbn [negb].
  - rewrite toggleFullscreen_exit_store, Map_has_delete_same. reflexivity.
  - rewrite toggleFullscreen_enter_store, Map_has_get, Map_get_set_same. reflexivity.
Qed.

Lemma handleFullscreenToggle_in_sync_witness :
  let r := handleFullscreenToggle "V1StGXR8" (Some (Some "${blockId} .x {}"))
             (mkFullscreenBlock (Some 10) false) demo demoState in
  isFullscreen (fst (fst r)) = negb false
  /\ isFullscreen (fst (fst r)) = isElementFullscreen (snd (fst r)) 10 (snd r).
Proof.
  apply (handleFullscreenToggle_in_sync "V1StGXR8" (Some (Some "${blockId} .x {}"))
           (mkFullscreenBlock (Some 10) false) demo demoState (e := 10)).
  reflexivity.
Defined.

(** After a click the root element has an identifier: one it had, or
    else [fullscreen-block-container-] followed by the token; an element
    that had one keeps it, and the tree is as before. *)
Theorem handleFullscreenToggle_identifier (nanoid : string)
    (customStyleConfig : option (option string))
    (c : FullscreenBlock) (d : DOM) (s : State) (e : node) :
  rootElementRef c = Some e ->
  e < List.length (elements d) ->
  let d' := snd (fst (handleFullscreenToggle nanoid customStyleConfig c d s)) in
  idOf d' e <> ""
  /\ (idOf d e <> "" -> d' = d)
  /\ (idOf d e = "" -> idOf d' e = ("fullscreen-block-container-" ++ nanoid)%string)
  /\ (forall n, n <> e -> idOf d' n = idOf d n)
  /\ dom_wf d' = dom_wf d.
Proof.
  intros Href He d'. unfold d', handleFullscreenToggle. rewrite Href. cbn [fst snd].
  apply Nat.ltb_lt in He.
  destruct (String.eqb (idOf d e) "") eqn:E.
  - apply String.eqb_eq in E. split; [|split; [|split; [|split]]].
    + rewrite idOf_setElementId, Nat.eqb_refl, He. discriminate.
    + congruence.
    + intros _. rewrite idOf_setElementId, Nat.eqb_refl, He. reflexivity.
    + intros n Hn. rewrite idOf_setElementId.
      apply Nat.eqb_neq in Hn. rewrite Hn. reflexivity.
    + apply dom_wf_setElementId.
  - apply String.eqb_neq in E. repeat split; auto. congruence.
Qed.

Lemma handleFullscreenToggle_identifier_witness :
  let d' := snd (fst (handleFullscreenToggle "V1StGXR8" None
                        (mkFullscreenBlock (Some 10) false) demo demoState)) in
  idOf d' 10 <> ""
  /\ (idOf demo 10 <> "" -> d' = demo)
  /\ (idOf demo 10 = "" -> idOf d' 10 = "fullscreen-block-container-V1StGXR8")
  /\ (forall n, n <> 10 -> idOf d' n = idOf demo n)
  /\ dom_wf d' = dom_wf demo.
Proof.
  apply (handleFullscreenToggle_identifier "V1StGXR8" None
           (mkFullscreenBlock (Some 10) false) demo demoState (e := 10));
    [reflexivity|simpl; lia].
Defined.




(** * Nested sessions *)


